(** * ResilienceDoctor: circuit breaker, retry policy and health monitor

    A shallow embedding of the resilience primitives of
    [resilience_doctor/patterns/circuit_breaker.py],
    [resilience_doctor/patterns/retry.py] and
    [resilience_doctor/monitoring/health.py], with the properties of the
    specification stated and proved over it.

    Conventions of the embedding.
    - Python objects are records; a method takes the object and returns the
      updated object (explicit state passing).
    - Everything outside the object (the wall clock behind [time.time()], the
      effect of [time.sleep], whatever the wrapped operation touches) is a
      world [W], threaded through every call in program order.
    - Python [int] is [Z]; a [float] holding seconds is a rational [Q].
    - A wrapped operation either returns a value or raises an instance of
      [Exception]; the interpreter-level signals that are not [Exception]s
      (KeyboardInterrupt, SystemExit) are outside the model, and so are threads:
      the lock of the breaker is held around each bookkeeping step and the
      model runs one caller at a time. *)

From Stdlib Require Import ZArith QArith Qminmax Bool List String Lia Lqa Permutation.
Import ListNotations.

Open Scope Z_scope.

(** ** The environment *)

(** [time_time w] is one evaluation of [time.time()]: the value read and the
    world afterwards.  [time_sleep d w] is the world after [time.sleep(d)]
    has returned normally. *)
Class PyWorld (W : Type) : Type := {
  time_time : W -> Q * W;
  time_sleep : Q -> W -> W
}.

(** What one invocation of the wrapped [func] does: it returns ([inl]) or
    raises ([inr]), and changes the world. *)
Definition operation (W V E : Type) : Type := W -> (V + E) * W.

(** An operation fails on every invocation. *)
Definition always_fails {W V E : Type} (func : operation W V E) : Prop :=
  forall w, exists e w', func w = (inr e, w').

(** An operation succeeds on every invocation. *)
Definition always_succeeds {W V E : Type} (func : operation W V E) : Prop :=
  forall w, exists v w', func w = (inl v, w').

(** A simulated world for concrete runs: the world is the current clock value,
    reading it does not advance it, sleeping advances it by the delay. *)
#[export] Instance SimClock : PyWorld Q := {
  time_time := fun w => (w, w);
  time_sleep := fun d w => (w + d)%Q
}.

(** A world extended with the log of the outcomes of the instrumented
    operation, most recent first.  The clock and the sleep act on the
    underlying world and leave the log alone. *)
#[export] Instance LoggedWorld {W L : Type} `{PyWorld W} : PyWorld (W * list L) := {
  time_time := fun wl => let (t, w') := time_time (fst wl) in (t, (w', snd wl));
  time_sleep := fun d wl => (time_sleep d (fst wl), snd wl)
}.

(** [logged func] behaves as [func] and records every invocation. *)
Definition logged {W V E : Type} (func : operation W V E)
  : operation (W * list (V + E)) V E :=
  fun wl => let (r, w') := func (fst wl) in (r, (w', r :: snd wl)).

(** [unlogged func] behaves as [func] and leaves the log alone. *)
Definition unlogged {W L V E : Type} (func : operation W V E)
  : operation (W * list L) V E :=
  fun wl => let (r, w') := func (fst wl) in (r, (w', snd wl)).

(** A world extended with the list of the delays slept, most recent first. *)
Record Sleeping (W : Type) : Type := mkSleeping {
  awake : W;
  sleeps : list Q
}.
Arguments mkSleeping {W} _ _.
Arguments awake {W} _.
Arguments sleeps {W} _.

#[export] Instance SleepingWorld {W : Type} `{PyWorld W}
  : PyWorld (Sleeping W) := {
  time_time := fun s =>
    let (t, w') := time_time (awake s) in (t, mkSleeping w' (sleeps s));
  time_sleep := fun d s => mkSleeping (time_sleep d (awake s)) (d :: sleeps s)
}.


(** ** patterns/circuit_breaker.py *)

Module circuit_breaker.

Inductive CircuitState : Type := CLOSED | OPEN | HALF_OPEN.

(** The [value] of each member of the enum. *)
Definition CircuitState_value (s : CircuitState) : string :=
  match s with
  | CLOSED => "closed"
  | OPEN => "open"
  | HALF_OPEN => "half_open"
  end%string.

(** The attributes of a [CircuitBreaker] instance (the lock is not data). *)
Record CircuitBreaker : Type := mkCircuitBreaker {
  failure_threshold : Z;
  timeout : Q;
  success_threshold : Z;
  name : string;
  _state : CircuitState;
  _failure_count : Z;
  _success_count : Z;
  _last_failure_time : option Q
}.

(** [CircuitBreaker.__init__]; [name or "default"] replaces both [None] and
    the empty string. *)
Definition __init__ (failure_threshold : Z) (timeout : Q)
    (success_threshold : Z) (name : option string) : CircuitBreaker :=
  mkCircuitBreaker failure_threshold timeout success_threshold
    (match name with
     | None => "default"
     | Some EmptyString => "default"
     | Some s => s
     end)%string
    CLOSED 0 0 None.

Definition set_state (s : CircuitState) (b : CircuitBreaker) : CircuitBreaker :=
  mkCircuitBreaker (failure_threshold b) (timeout b) (success_threshold b)
    (name b) s (_failure_count b) (_success_count b) (_last_failure_time b).

Definition set_failure_count (n : Z) (b : CircuitBreaker) : CircuitBreaker :=
  mkCircuitBreaker (failure_threshold b) (timeout b) (success_threshold b)
    (name b) (_state b) n (_success_count b) (_last_failure_time b).

Definition set_success_count (n : Z) (b : CircuitBreaker) : CircuitBreaker :=
  mkCircuitBreaker (failure_threshold b) (timeout b) (success_threshold b)
    (name b) (_state b) (_failure_count b) n (_last_failure_time b).

Definition set_last_failure_time (t : option Q) (b : CircuitBreaker)
  : CircuitBreaker :=
  mkCircuitBreaker (failure_threshold b) (timeout b) (success_threshold b)
    (name b) (_state b) (_failure_count b) (_success_count b) t.

(** What [call] raises: its own rejection, or the exception of the wrapped
    operation, re-raised as it is. *)
Inductive call_exception (E : Type) : Type :=
| CircuitBreakerError (message : string)
| OperationException (e : E).
Arguments CircuitBreakerError {E} message.
Arguments OperationException {E} e.

(** The snapshot returned by [get_stats]. *)
Record Stats : Type := mkStats {
  stats_name : string;
  stats_state : string;
  stats_failure_count : Z;
  stats_success_count : Z;
  stats_last_failure_time : option Q
}.

(** [_trip]: open the circuit. *)
Definition _trip (b : CircuitBreaker) : CircuitBreaker :=
  set_success_count 0 (set_state OPEN b).

(** [_reset]: close the circuit. *)
Definition _reset (b : CircuitBreaker) : CircuitBreaker :=
  set_success_count 0 (set_failure_count 0 (set_state CLOSED b)).

(** [reset]: the manual reset. *)
Definition reset (b : CircuitBreaker) : CircuitBreaker := _reset b.

(** [_on_success]. *)
Definition _on_success (b : CircuitBreaker) : CircuitBreaker :=
  match _state b with
  | HALF_OPEN =>
      let b1 := set_success_count (_success_count b + 1) b in
      if success_threshold b1 <=? _success_count b1 then _reset b1 else b1
  | CLOSED => set_failure_count 0 b
  | OPEN => b
  end.

Section WithWorld.

Context {W : Type} `{PyWorld W}.

(** [_should_attempt_reset]: the clock is read only when a failure time is
    recorded. *)
Definition _should_attempt_reset (b : CircuitBreaker) (w : W) : bool * W :=
  match _last_failure_time b with
  | None => (false, w)
  | Some t =>
      let (now, w') := time_time w in
      (Qle_bool (timeout b) (now - t), w')
  end.

(** The [state] property: the state read, the breaker and the world after
    the read. *)
Definition state (b : CircuitBreaker) (w : W)
  : CircuitState * CircuitBreaker * W :=
  match _state b with
  | OPEN =>
      let (attempt, w') := _should_attempt_reset b w in
      if attempt then
        let b' := set_success_count 0 (set_state HALF_OPEN b) in
        (_state b', b', w')
      else (_state b, b, w')
  | _ => (_state b, b, w)
  end.

(** [_on_failure]. *)
Definition _on_failure (b : CircuitBreaker) (w : W) : CircuitBreaker * W :=
  let b1 := set_failure_count (_failure_count b + 1) b in
  let (now, w') := time_time w in
  let b2 := set_last_failure_time (Some now) b1 in
  match _state b2 with
  | HALF_OPEN => (_trip b2, w')
  | _ =>
      if failure_threshold b2 <=? _failure_count b2 then (_trip b2, w')
      else (b2, w')
  end.

(** [get_stats]: reads the attributes directly, not the [state] property. *)
Definition get_stats (b : CircuitBreaker) (w : W)
  : Stats * CircuitBreaker * W :=
  (mkStats (name b) (CircuitState_value (_state b)) (_failure_count b)
     (_success_count b) (_last_failure_time b), b, w).

Context {V E : Type}.

(** [call]: the result or the exception raised, the breaker and the world
    afterwards. *)
Definition call (b : CircuitBreaker) (func : operation W V E) (w : W)
  : (V + call_exception E) * CircuitBreaker * W :=
  let '(current_state, b1, w1) := state b w in
  match current_state with
  | OPEN =>
      (inr (CircuitBreakerError
              ("Circuit breaker '" ++ name b1 ++ "' is OPEN")%string), b1, w1)
  | _ =>
      let (r, w2) := func w1 in
      match r with
      | inl result => (inl result, _on_success b1, w2)
      | inr e =>
          let (b2, w3) := _on_failure b1 w2 in
          (inr (OperationException e), b2, w3)
      end
  end.

(** [n] calls of the same operation one after the other through the same
    breaker; the outcomes are listed in call order. *)
Fixpoint call_n (n : nat) (b : CircuitBreaker) (func : operation W V E) (w : W)
  : list (V + call_exception E) * CircuitBreaker * W :=
  match n with
  | O => ([], b, w)
  | S k =>
      let '(r, b1, w1) := call b func w in
      let '(rs, b2, w2) := call_n k b1 func w1 in
      (r :: rs, b2, w2)
  end.

(** The breaker after a failure recorded at clock value [now]: the part of
    [_on_failure] that follows the clock read. *)
Definition failure_recorded (b : CircuitBreaker) (now : Q) : CircuitBreaker :=
  let b2 := set_last_failure_time (Some now)
              (set_failure_count (_failure_count b + 1) b) in
  match _state b with
  | HALF_OPEN => _trip b2
  | _ => if failure_threshold b <=? _failure_count b + 1 then _trip b2 else b2
  end.

(** The outcome of a call that the breaker rejects. *)
Definition rejection (b : CircuitBreaker) : V + call_exception E :=
  inr (CircuitBreakerError ("Circuit breaker '" ++ name b ++ "' is OPEN")%string).

(** A call that is let through: the operation runs in the world left by the
    state read, then the outcome is recorded. *)
Definition let_through (b : CircuitBreaker) (func : operation W V E) (w : W)
  : (V + call_exception E) * CircuitBreaker * W :=
  let (r, w2) := func w in
  match r with
  | inl result => (inl result, _on_success b, w2)
  | inr e =>
      let (b2, w3) := _on_failure b w2 in
      (inr (OperationException e), b2, w3)
  end.

(** The outcome of a call whose operation ran and raised. *)
Definition operation_raised (r : V + call_exception E) : Prop :=
  exists e, r = inr (OperationException e).

(** The outcome of a call whose operation ran and returned. *)
Definition operation_returned (r : V + call_exception E) : Prop :=
  exists v, r = inl v.

(** The world after [n] successive clock reads and nothing else. *)
Definition clock_reads (n : nat) (w : W) : W :=
  Nat.iter n (fun w0 => snd (time_time w0)) w.

(** One bookkeeping step that changes the state of the breaker: the lazy
    transition of a [state] read, the recording of a success, the recording of
    a failure, or the manual reset. *)
Inductive transition : CircuitBreaker -> CircuitBreaker -> Prop :=
| transition_state_read (b b' : CircuitBreaker) (w w' : W) (s : CircuitState) :
    state b w = (s, b', w') -> _state b' <> _state b -> transition b b'
| transition_on_success (b : CircuitBreaker) :
    _state (_on_success b) <> _state b -> transition b (_on_success b)
| transition_on_failure (b b' : CircuitBreaker) (w w' : W) :
    _on_failure b w = (b', w') -> _state b' <> _state b -> transition b b'
| transition_reset (b : CircuitBreaker) : transition b (reset b).

(** The breakers that the public interface can produce from a new one. *)
Inductive reachable : CircuitBreaker -> Prop :=
| reachable_init (failure_threshold : Z) (timeout : Q) (success_threshold : Z)
    (name : option string) :
    reachable (__init__ failure_threshold timeout success_threshold name)
| reachable_state (b b' : CircuitBreaker) (w w' : W) (s : CircuitState) :
    reachable b -> state b w = (s, b', w') -> reachable b'
| reachable_call (b b' : CircuitBreaker) (func : operation W V E) (w w' : W)
    (r : V + call_exception E) :
    reachable b -> call b func w = (r, b', w') -> reachable b'
| reachable_reset (b : CircuitBreaker) : reachable b -> reachable (reset b).

End WithWorld.

(** What holds of every reachable breaker: an OPEN breaker has a failure time
    recorded, and the success count is 0 outside HALF_OPEN and never negative
    inside it. *)
Definition well_formed (b : CircuitBreaker) : Prop :=
  (_state b = OPEN -> exists t, _last_failure_time b = Some t) /\
  (_state b <> HALF_OPEN -> _success_count b = 0) /\
  0 <= _success_count b.

(** Two breaker values carry the same settings. *)
Definition same_settings (b b' : CircuitBreaker) : Prop :=
  failure_threshold b' = failure_threshold b /\
  timeout b' = timeout b /\
  success_threshold b' = success_threshold b /\
  name b' = name b.

(** The ranges in which the counters of a breaker stay: neither is negative,
    the success count is 0 outside HALF_OPEN, an OPEN breaker has a failure
    time, and with positive thresholds a CLOSED breaker has counted fewer
    failures than [failure_threshold] and a HALF_OPEN breaker fewer successes
    than [success_threshold]. *)
Definition counters_in_range (b : CircuitBreaker) : Prop :=
  0 <= _failure_count b /\
  0 <= _success_count b /\
  (_state b <> HALF_OPEN -> _success_count b = 0) /\
  (_state b = OPEN -> exists t, _last_failure_time b = Some t) /\
  (0 < failure_threshold b -> _state b = CLOSED ->
   _failure_count b < failure_threshold b) /\
  (0 < success_threshold b -> _state b = HALF_OPEN ->
   _success_count b < success_threshold b).

End circuit_breaker.

(** ** patterns/retry.py *)

Module retry.

(** The attributes of a [Retry] instance.  [exceptions] is the tuple of
    exception classes, kept as the test the [except] clause makes with it:
    whether the raised exception is an instance of one of them. *)
Record Retry (E : Type) : Type := mkRetry {
  max_attempts : Z;
  initial_delay : Q;
  backoff_factor : Q;
  exceptions : E -> bool;
  attempts : Z
}.
Arguments mkRetry {E} _ _ _ _ _.
Arguments max_attempts {E} _.
Arguments initial_delay {E} _.
Arguments backoff_factor {E} _.
Arguments exceptions {E} _ _.
Arguments attempts {E} _.

(** [Retry.__init__]. *)
Definition __init__ {E : Type} (max_attempts : Z) (initial_delay : Q)
    (backoff_factor : Q) (exceptions : E -> bool) : Retry E :=
  mkRetry max_attempts initial_delay backoff_factor exceptions 0.

Definition set_attempts {E : Type} (n : Z) (self : Retry E) : Retry E :=
  mkRetry (max_attempts self) (initial_delay self) (backoff_factor self)
    (exceptions self) n.

(** What a retried call raises.
    - [RetryExhaustedError n cause]: the message names [n] attempts, and
      [cause] is the exception after [from] ([None] when the loop body never
      ran);
    - [OperationException e]: an exception of the operation that the [except]
      clause does not catch, propagating as it is;
    - [SleepValueError d]: [time.sleep(d)] refuses a negative [d];
    - [CallbackException e]: the [on_retry] callback raised [e]. *)
Inductive retry_exception (E : Type) : Type :=
| RetryExhaustedError (failed_after : Z) (cause : option E)
| OperationException (e : E)
| SleepValueError (delay : Q)
| CallbackException (e : E).
Arguments RetryExhaustedError {E} failed_after cause.
Arguments OperationException {E} e.
Arguments SleepValueError {E} delay.
Arguments CallbackException {E} e.

Section WithWorld.

Context {W : Type} `{PyWorld W} {V E : Type}.

(** The [for] loop of [Retry.execute]: [remaining] iterations are left, the
    next one has loop variable [attempt]. *)
Fixpoint execute_loop (remaining : nat) (attempt : Z) (delay : Q)
    (last_exception : option E) (self : Retry E) (func : operation W V E)
    (w : W) : (V + retry_exception E) * Retry E * W :=
  match remaining with
  | O =>
      (inr (RetryExhaustedError (max_attempts self) last_exception), self, w)
  | S k =>
      let self1 := set_attempts (attempt + 1) self in
      let (r, w1) := func w in
      match r with
      | inl result => (inl result, self1, w1)
      | inr e =>
          if exceptions self1 e then
            if attempt <? max_attempts self1 - 1 then
              if Qle_bool 0 delay then
                execute_loop k (attempt + 1) (delay * backoff_factor self1)
                  (Some e) self1 func (time_sleep delay w1)
              else (inr (SleepValueError delay), self1, w1)
            else
              (inr (RetryExhaustedError (max_attempts self1) (Some e)),
               self1, w1)
          else (inr (OperationException e), self1, w1)
      end
  end.

(** [Retry.execute]. *)
Definition execute (self : Retry E) (func : operation W V E) (w : W)
  : (V + retry_exception E) * Retry E * W :=
  execute_loop (Z.to_nat (max_attempts self)) 0 (initial_delay self) None
    self func w.

(** The [for] loop of the [wrapper] that the [retry] decorator builds. *)
Fixpoint wrapper_loop (max_attempts : Z) (backoff_factor : Q)
    (exceptions : E -> bool)
    (on_retry : option (Z -> E -> W -> (unit + E) * W))
    (func : operation W V E)
    (remaining : nat) (attempt : Z) (delay : Q) (last_exception : option E)
    (w : W) : (V + retry_exception E) * W :=
  match remaining with
  | O => (inr (RetryExhaustedError max_attempts last_exception), w)
  | S k =>
      let (r, w1) := func w in
      match r with
      | inl result => (inl result, w1)
      | inr e =>
          if exceptions e then
            if attempt <? max_attempts - 1 then
              let (notified, w2) :=
                match on_retry with
                | Some callback => callback (attempt + 1) e w1
                | None => (inl tt, w1)
                end in
              match notified with
              | inr e' => (inr (CallbackException e'), w2)
              | inl _ =>
                  if Qle_bool 0 delay then
                    wrapper_loop max_attempts backoff_factor exceptions
                      on_retry func k (attempt + 1) (delay * backoff_factor)
                      (Some e) (time_sleep delay w2)
                  else (inr (SleepValueError delay), w2)
              end
            else (inr (RetryExhaustedError max_attempts (Some e)), w1)
          else (inr (OperationException e), w1)
      end
  end.

(** [retry(max_attempts, initial_delay, backoff_factor, exceptions,
    on_retry)(func)]: the decorated function. *)
Definition wrapper (max_attempts : Z) (initial_delay backoff_factor : Q)
    (exceptions : E -> bool)
    (on_retry : option (Z -> E -> W -> (unit + E) * W))
    (func : operation W V E) (w : W) : (V + retry_exception E) * W :=
  wrapper_loop max_attempts backoff_factor exceptions on_retry func
    (Z.to_nat max_attempts) 0 initial_delay None w.

End WithWorld.

(** An entry of the invocation log that is a failure caught by the [except]
    clause of the policy. *)
Definition caught {V E : Type} (exceptions : E -> bool) (r : V + E) : Prop :=
  exists e, r = inr e /\ exceptions e = true.

(** An operation fails on every invocation with an exception the policy
    retries. *)
Definition always_fails_retryably {W V E : Type} (exceptions : E -> bool)
    (func : operation W V E) : Prop :=
  forall w, exists e w', func w = (inr e, w') /\ exceptions e = true.


(** An [on_retry] observer that notes its arguments in the log and returns. *)
Definition record_retry {W E : Type} (attempt : Z) (e : E)
    (wl : W * list (Z * E)) : (unit + E) * (W * list (Z * E)) :=
  (inl tt, (fst wl, (attempt, e) :: snd wl)).

(** Two policy objects carry the same configuration. *)
Definition same_configuration {E : Type} (p q : Retry E) : Prop :=
  max_attempts p = max_attempts q /\
  initial_delay p = initial_delay q /\
  backoff_factor p = backoff_factor q /\
  exceptions p = exceptions q.

(** How the outcome [res] of the loop relates to the invocations [new] it
    made, most recent first, when [last] was the last exception before it:
    every invocation but the most recent one failed with a caught exception,
    and the most recent one decides the outcome. *)
Definition verdict {V E : Type} (self : Retry E) (last : option E)
    (new : list (V + E)) (res : V + retry_exception E) : Prop :=
  match new with
  | [] => res = inr (RetryExhaustedError (max_attempts self) last)
  | r :: older =>
      Forall (caught (exceptions self)) older /\
      match r with
      | inl v => res = inl v
      | inr e =>
          if exceptions self e then
            res = inr (RetryExhaustedError (max_attempts self) (Some e)) \/
            exists d, res = inr (SleepValueError d)
          else res = inr (OperationException e)
      end
  end.

End retry.

(** ** monitoring/health.py *)

Module health.

Inductive HealthStatus : Type := HEALTHY | DEGRADED | UNHEALTHY.

Definition HealthStatus_value (s : HealthStatus) : string :=
  match s with
  | HEALTHY => "healthy"
  | DEGRADED => "degraded"
  | UNHEALTHY => "unhealthy"
  end%string.

(** The attributes of a [HealthCheck] instance.  The probe [check_fn] returns
    a value of which only the truth value is used ([inl]), or raises
    ([inr]). *)
Record HealthCheck (W E : Type) : Type := mkHealthCheck {
  name : string;
  check_fn : operation W bool E;
  critical : bool;
  timeout : Q;
  last_check_time : option Q;
  last_status : option HealthStatus;
  last_error : option string
}.
Arguments mkHealthCheck {W E} _ _ _ _ _ _ _.
Arguments name {W E} _.
Arguments check_fn {W E} _ _.
Arguments critical {W E} _.
Arguments timeout {W E} _.
Arguments last_check_time {W E} _.
Arguments last_status {W E} _.
Arguments last_error {W E} _.

(** [HealthCheck.__init__]. *)
Definition __init__ {W E : Type} (name : string)
    (check_fn : operation W bool E) (critical : bool) (timeout : Q)
  : HealthCheck W E :=
  mkHealthCheck name check_fn critical timeout None None None.

(** The dictionary returned by [HealthCheck.check]. *)
Record CheckResult : Type := mkCheckResult {
  result_name : string;
  result_status : string;
  result_critical : bool;
  result_duration : Q;
  result_timestamp : Q;
  result_error : option string
}.

(** The dictionary returned by [HealthMonitor.check_all]. *)
Record Report : Type := mkReport {
  report_status : string;
  report_timestamp : Q;
  report_checks : list CheckResult
}.

(** [HealthMonitor]: its [checks] dictionary, in insertion order. *)
Record HealthMonitor (W E : Type) : Type := mkHealthMonitor {
  checks : list (string * HealthCheck W E)
}.
Arguments mkHealthMonitor {W E} _.
Arguments checks {W E} _.

(** [d[key] = value] on an insertion-ordered dictionary: an existing key
    keeps its place, a new key goes last. *)
Fixpoint dict_set {A : Type} (key : string) (value : A)
    (d : list (string * A)) : list (string * A) :=
  match d with
  | [] => [(key, value)]
  | (k, v) :: rest =>
      if String.eqb k key then (k, value) :: rest
      else (k, v) :: dict_set key value rest
  end.

Fixpoint dict_get {A : Type} (key : string) (d : list (string * A))
  : option A :=
  match d with
  | [] => None
  | (k, v) :: rest => if String.eqb k key then Some v else dict_get key rest
  end.

Definition dict_del {A : Type} (key : string) (d : list (string * A))
  : list (string * A) :=
  filter (fun kv => negb (String.eqb (fst kv) key)) d.

(** A result record reports UNHEALTHY. *)
Definition is_unhealthy (r : CheckResult) : bool :=
  String.eqb (result_status r) (HealthStatus_value UNHEALTHY).

(** The aggregation rule in the words of the specification: UNHEALTHY if a
    critical check is UNHEALTHY, else DEGRADED if any check is UNHEALTHY, else
    HEALTHY. *)
Definition overall_status_spec (results : list CheckResult) : HealthStatus :=
  if existsb (fun r => result_critical r && is_unhealthy r) results
  then UNHEALTHY
  else if existsb is_unhealthy results then DEGRADED
  else HEALTHY.

Section WithWorld.

Context {W : Type} `{PyWorld W} {E : Type}.

(** [str(e)] of an exception. *)
Variable str : E -> string.

(** [HealthCheck.check]: the result record, the check with its cached
    fields updated, and the world afterwards. *)
Definition check (self : HealthCheck W E) (w : W)
  : CheckResult * HealthCheck W E * W :=
  let (start_time, w1) := time_time w in
  let (r, w2) := check_fn self w1 in
  let (finished, w3) := time_time w2 in
  let duration := (finished - start_time)%Q in
  match r with
  | inl result =>
      let status := if result then HEALTHY else UNHEALTHY in
      (mkCheckResult (name self) (HealthStatus_value status) (critical self)
         duration start_time None,
       mkHealthCheck (name self) (check_fn self) (critical self)
         (timeout self) (Some start_time) (Some status) None,
       w3)
  | inr e =>
      (mkCheckResult (name self) (HealthStatus_value UNHEALTHY)
         (critical self) duration start_time (Some (str e)),
       mkHealthCheck (name self) (check_fn self) (critical self)
         (timeout self) (Some start_time) (Some UNHEALTHY) (Some (str e)),
       w3)
  end.

(** [HealthMonitor.add_check]. *)
Definition add_check (self : HealthMonitor W E) (name : string)
    (check_fn : operation W bool E) (critical : bool) (timeout : Q)
  : HealthMonitor W E :=
  mkHealthMonitor
    (dict_set name (__init__ name check_fn critical timeout) (checks self)).

(** [HealthMonitor.remove_check]. *)
Definition remove_check (self : HealthMonitor W E) (name : string)
  : HealthMonitor W E :=
  mkHealthMonitor (dict_del name (checks self)).

(** The update of [overall_status] in the body of the loop of
    [check_all]. *)
Definition update_overall (overall_status : HealthStatus)
    (result : CheckResult) (check : HealthCheck W E) : HealthStatus :=
  if String.eqb (result_status result) (HealthStatus_value UNHEALTHY) then
    if critical check then UNHEALTHY
    else
      match overall_status with
      | HEALTHY => DEGRADED
      | _ => overall_status
      end
  else overall_status.

(** The loop of [check_all] over [self.checks.values()]. *)
Fixpoint check_all_loop (remaining : list (string * HealthCheck W E))
    (results : list CheckResult) (overall_status : HealthStatus) (w : W)
  : list (string * HealthCheck W E) * list CheckResult * HealthStatus * W :=
  match remaining with
  | [] => ([], results, overall_status, w)
  | (key, check0) :: rest =>
      let '(result, check1, w1) := check check0 w in
      let '(rest', results', overall', w2) :=
        check_all_loop rest (results ++ [result])
          (update_overall overall_status result check1) w1 in
      ((key, check1) :: rest', results', overall', w2)
  end.

(** [HealthMonitor.check_all]. *)
Definition check_all (self : HealthMonitor W E) (w : W)
  : Report * HealthMonitor W E * W :=
  let '(checks', results, overall_status, w1) :=
    check_all_loop (checks self) [] HEALTHY w in
  let (timestamp, w2) := time_time w1 in
  (mkReport (HealthStatus_value overall_status) timestamp results,
   mkHealthMonitor checks', w2).

(** [HealthMonitor.check_one]. *)
Definition check_one (self : HealthMonitor W E) (name : string) (w : W)
  : option CheckResult * HealthMonitor W E * W :=
  match dict_get name (checks self) with
  | Some check0 =>
      let '(result, check1, w1) := check check0 w in
      (Some result, mkHealthMonitor (dict_set name check1 (checks self)), w1)
  | None => (None, self, w)
  end.

(** What the outcome of a probe stands for, in the words of the
    specification: HEALTHY if the probe returns a truthy result, UNHEALTHY if
    it returns a falsy result or raises; the error message is that of the
    exception raised, if any. *)
Definition outcome_status (outcome : bool + E) : HealthStatus :=
  match outcome with
  | inl true => HEALTHY
  | _ => UNHEALTHY
  end.

Definition outcome_error (outcome : bool + E) : option string :=
  match outcome with
  | inr e => Some (str e)
  | inl _ => None
  end.

(** [probes_ran registered w results w']: starting in world [w], the probe of
    every registered check ran exactly once, in the order of the dictionary,
    each one between two clock reads, and [results] lists in the same order
    the records that the outcomes stand for; [w'] is the world afterwards. *)
Inductive probes_ran
  : list (string * HealthCheck W E) -> W -> list CheckResult -> W -> Prop :=
| probes_ran_none (w : W) : probes_ran [] w [] w
| probes_ran_next (key : string) (check0 : HealthCheck W E)
    (rest : list (string * HealthCheck W E)) (w w1 w2 w3 w' : W)
    (start_time finished : Q) (outcome : bool + E)
    (results : list CheckResult) :
    time_time w = (start_time, w1) ->
    check_fn check0 w1 = (outcome, w2) ->
    time_time w2 = (finished, w3) ->
    probes_ran rest w3 results w' ->
    probes_ran ((key, check0) :: rest) w
      (mkCheckResult (name check0) (HealthStatus_value (outcome_status outcome))
         (critical check0) (finished - start_time) start_time
         (outcome_error outcome) :: results)
      w'.

End WithWorld.

(** What the aggregation looks at in a result record: whether the check is
    critical and whether it is UNHEALTHY. *)
Definition finding (r : CheckResult) : bool * bool :=
  (result_critical r, is_unhealthy r).

(** [HealthMonitor.__init__]: no check is registered. *)
Definition HealthMonitor__init__ {W E : Type} : HealthMonitor W E :=
  mkHealthMonitor [].

(** The names under which checks are registered, in insertion order. *)
Definition names {W E : Type} (self : HealthMonitor W E) : list string :=
  map fst (checks self).

(** Two check objects that differ at most in their cached fields. *)
Definition same_check {W E : Type} (c c' : HealthCheck W E) : Prop :=
  name c' = name c /\ check_fn c' = check_fn c /\
  critical c' = critical c /\ timeout c' = timeout c.

(** The cached fields of a check object hold what the result record
    reports. *)
Definition cached {W E : Type} (c : HealthCheck W E) (r : CheckResult)
  : Prop :=
  option_map HealthStatus_value (last_status c) = Some (result_status r) /\
  last_error c = result_error r /\
  last_check_time c = Some (result_timestamp r).

End health.

(** ** Concrete runs

    The objects and operations of the runs on the simulated clock. *)

Module simulation.

(** An operation that takes one second and raises. *)
Definition failing : operation Q unit string :=
  fun w => (inr "boom"%string, (w + 1)%Q).

(** An operation that takes one second and returns. *)
Definition succeeding : operation Q unit string :=
  fun w => (inl tt, (w + 1)%Q).

(** [CircuitBreaker(failure_threshold=2, timeout=60, success_threshold=2)]. *)
Definition breaker : circuit_breaker.CircuitBreaker :=
  circuit_breaker.__init__ 2 60 2 None.

(** [CircuitBreaker(failure_threshold=1, timeout=60)]. *)
Definition breaker1 : circuit_breaker.CircuitBreaker :=
  circuit_breaker.__init__ 1 60 2 None.

(** [breaker] after two failures, the second at clock value 10. *)
Definition open_breaker : circuit_breaker.CircuitBreaker :=
  circuit_breaker.mkCircuitBreaker 2 60 2 "default" circuit_breaker.OPEN 2 0
    (Some 10%Q).

(** [Retry(max_attempts=3, initial_delay=1, backoff_factor=2)]: every
    exception is retried. *)
Definition policy : retry.Retry string :=
  retry.__init__ 3 1 2 (fun _ => true).

(** [policy] with an empty tuple of exception classes: nothing is retried. *)
Definition policy_strict : retry.Retry string :=
  retry.__init__ 3 1 2 (fun _ => false).

(** A probe that raises. *)
Definition down : operation Q bool string :=
  fun w => (inr "connection refused"%string, w).

(** A probe that returns [True]. *)
Definition up : operation Q bool string := fun w => (inl true, w).

(** A probe that returns [True] after ten seconds. *)
Definition slow : operation Q bool string :=
  fun w => (inl true, (w + 10)%Q).

(** [HealthCheck("db", slow, critical=True, timeout=5.0)]. *)
Definition slow_check : health.HealthCheck Q string :=
  health.__init__ "db" slow true 5.

(** A monitor with a critical check that fails and a non-critical check that
    fails, and the same checks registered in the other order. *)
Definition monitor : health.HealthMonitor Q string :=
  health.mkHealthMonitor
    [("db"%string, health.__init__ "db" down true 5);
     ("cache"%string, health.__init__ "cache" down false 5)].

Definition monitor_swapped : health.HealthMonitor Q string :=
  health.mkHealthMonitor
    [("cache"%string, health.__init__ "cache" down false 5);
     ("db"%string, health.__init__ "db" down true 5)].

(** A probe that raises after [d] seconds. *)
Definition down_after (d : Q) : operation Q bool string :=
  fun w => (inr "connection refused"%string, (w + d)%Q).

(** A monitor whose probes take time, and the same checks registered in the
    other order. *)
Definition monitor_timed : health.HealthMonitor Q string :=
  health.mkHealthMonitor
    [("db"%string, health.__init__ "db" (down_after 2) true 5);
     ("cache"%string, health.__init__ "cache" (down_after 1) false 5)].

Definition monitor_timed_swapped : health.HealthMonitor Q string :=
  health.mkHealthMonitor
    [("cache"%string, health.__init__ "cache" (down_after 1) false 5);
     ("db"%string, health.__init__ "db" (down_after 2) true 5)].

(** A monitor whose critical check passes and whose non-critical check
    fails, and a monitor whose checks all pass. *)
Definition monitor_degraded : health.HealthMonitor Q string :=
  health.mkHealthMonitor
    [("db"%string, health.__init__ "db" up true 5);
     ("cache"%string, health.__init__ "cache" down false 5)].

Definition monitor_healthy : health.HealthMonitor Q string :=
  health.mkHealthMonitor
    [("db"%string, health.__init__ "db" up true 5);
     ("cache"%string, health.__init__ "cache" up false 5)].

(** [open_breaker] after a state read once the timeout has elapsed. *)
Definition half_open_breaker : circuit_breaker.CircuitBreaker :=
  circuit_breaker.mkCircuitBreaker 2 60 2 "default" circuit_breaker.HALF_OPEN
    2 0 (Some 10%Q).

End simulation.

(** ** Properties of the environment *)

Lemma Qle_bool_false_iff (x y : Q) : Qle_bool x y = false <-> (y < x)%Q.
Proof.
  split; intro Hxy.
  - apply Qnot_le_lt. intro Hle. apply Qle_bool_iff in Hle. congruence.
  - destruct (Qle_bool x y) eqn:Hb; [|reflexivity].
    apply Qle_bool_iff in Hb. exfalso. apply (Qlt_not_le _ _ Hxy Hb).
Qed.

(** ** Properties of patterns/circuit_breaker.py *)

Module circuit_breaker_facts.

Import circuit_breaker.

Section WithWorld.

Context {W : Type} `{PyWorld W} {V E : Type}.

(** *** Equations of the bookkeeping steps *)

Lemma _on_failure_eq (b : CircuitBreaker) (w w' : W) (now : Q) :
  time_time w = (now, w') -> _on_failure b w = (failure_recorded b now, w').
Proof.
  intros Hnow. unfold _on_failure, failure_recorded. rewrite Hnow. cbn.
  destruct (_state b); try reflexivity;
    destruct (failure_threshold b <=? _failure_count b + 1); reflexivity.
Qed.

Lemma state_not_open (b : CircuitBreaker) (w : W) :
  _state b <> OPEN -> state b w = (_state b, b, w).
Proof. unfold state. destruct (_state b); congruence. Qed.

Lemma state_open_early (b : CircuitBreaker) (w w' : W) (t now : Q) :
  _state b = OPEN -> _last_failure_time b = Some t ->
  time_time w = (now, w') -> (now - t < timeout b)%Q ->
  state b w = (OPEN, b, w').
Proof.
  intros Hs Ht Hnow Hlt. unfold state, _should_attempt_reset.
  rewrite Hs, Ht, Hnow.
  apply Qle_bool_false_iff in Hlt. rewrite Hlt. reflexivity.
Qed.

Lemma state_open_elapsed (b : CircuitBreaker) (w w' : W) (t now : Q) :
  _state b = OPEN -> _last_failure_time b = Some t ->
  time_time w = (now, w') -> (timeout b <= now - t)%Q ->
  state b w = (HALF_OPEN, set_success_count 0 (set_state HALF_OPEN b), w').
Proof.
  intros Hs Ht Hnow Hle. unfold state, _should_attempt_reset.
  rewrite Hs, Ht, Hnow.
  apply Qle_bool_iff in Hle. rewrite Hle. reflexivity.
Qed.

(** A call that finds the breaker OPEN before the timeout has elapsed is
    rejected: whatever [func] is, the world is only advanced by the clock read
    and the breaker is left as it was. *)
Lemma call_open_early (b : CircuitBreaker) (func : operation W V E)
    (w w' : W) (t now : Q) :
  _state b = OPEN -> _last_failure_time b = Some t ->
  time_time w = (now, w') -> (now - t < timeout b)%Q ->
  call b func w = (rejection b, b, w').
Proof.
  intros Hs Ht Hnow Hlt. unfold call.
  rewrite (state_open_early b w w' t now Hs Ht Hnow Hlt). reflexivity.
Qed.

Lemma call_not_open (b : CircuitBreaker) (func : operation W V E) (w : W) :
  _state b <> OPEN -> call b func w = let_through b func w.
Proof.
  intros Hs. unfold call, let_through. rewrite (state_not_open b w Hs).
  destruct (_state b); [reflexivity | congruence | reflexivity].
Qed.

Lemma call_open_elapsed (b : CircuitBreaker) (func : operation W V E)
    (w w' : W) (t now : Q) :
  _state b = OPEN -> _last_failure_time b = Some t ->
  time_time w = (now, w') -> (timeout b <= now - t)%Q ->
  call b func w =
  let_through (set_success_count 0 (set_state HALF_OPEN b)) func w'.
Proof.
  intros Hs Ht Hnow Hle. unfold call.
  rewrite (state_open_elapsed b w w' t now Hs Ht Hnow Hle). reflexivity.
Qed.

Lemma call_failure (b : CircuitBreaker) (func : operation W V E)
    (w w1 w2 : W) (e : E) (now : Q) :
  _state b <> OPEN -> func w = (inr e, w1) -> time_time w1 = (now, w2) ->
  call b func w = (inr (OperationException e), failure_recorded b now, w2).
Proof.
  intros Hs Hf Hnow. rewrite (call_not_open b func w Hs). unfold let_through.
  rewrite Hf, (_on_failure_eq b w1 w2 now Hnow). reflexivity.
Qed.

Lemma call_success (b : CircuitBreaker) (func : operation W V E)
    (w w1 : W) (v : V) :
  _state b <> OPEN -> func w = (inl v, w1) ->
  call b func w = (inl v, _on_success b, w1).
Proof.
  intros Hs Hf. rewrite (call_not_open b func w Hs). unfold let_through.
  rewrite Hf. reflexivity.
Qed.

Lemma call_n_S (n : nat) (b : CircuitBreaker) (func : operation W V E)
    (w : W) :
  call_n (S n) b func w =
  let '(r, b1, w1) := call b func w in
  let '(rs, b2, w2) := call_n n b1 func w1 in
  (r :: rs, b2, w2).
Proof. reflexivity. Qed.

Lemma call_n_snoc (n : nat) (b : CircuitBreaker) (func : operation W V E)
    (w : W) :
  call_n (S n) b func w =
  let '(rs, b1, w1) := call_n n b func w in
  let '(r, b2, w2) := call b1 func w1 in
  (rs ++ [r], b2, w2).
Proof.
  revert b w. induction n as [|n IH]; intros b w.
  - cbn. destruct (call b func w) as [[r b1] w1]. reflexivity.
  - rewrite (call_n_S (S n)), (call_n_S n).
    destruct (call b func w) as [[r b1] w1].
    rewrite IH.
    destruct (call_n n b1 func w1) as [[rs b2] w2].
    destruct (call b2 func w2) as [[r2 b3] w3]. reflexivity.
Qed.

(** While CLOSED and below the threshold, failures only count up. *)
Lemma closed_failures_below_threshold (func : operation W V E) :
  always_fails func ->
  forall (n : nat) (b : CircuitBreaker) (w : W),
    _state b = CLOSED ->
    _failure_count b + Z.of_nat n < failure_threshold b ->
    exists rs b' w',
      call_n n b func w = (rs, b', w') /\
      Forall operation_raised rs /\
      _state b' = CLOSED /\
      _failure_count b' = _failure_count b + Z.of_nat n /\
      failure_threshold b' = failure_threshold b /\
      timeout b' = timeout b /\ name b' = name b.
Proof.
  intros Hfail n. induction n as [|n IH]; intros b w Hs Hlt.
  - exists [], b, w. cbn. repeat split; auto. lia.
  - destruct (Hfail w) as (e & w1 & Hf).
    destruct (time_time w1) as [now w2] eqn:Hnow.
    assert (Hopen : _state b <> OPEN) by congruence.
    pose proof (call_failure b func w w1 w2 e now Hopen Hf Hnow) as Hcall.
    assert (Hrec : failure_recorded b now =
                   set_last_failure_time (Some now)
                     (set_failure_count (_failure_count b + 1) b)).
    { unfold failure_recorded. rewrite Hs.
      destruct (failure_threshold b <=? _failure_count b + 1) eqn:Hc;
        [apply Z.leb_le in Hc; lia | reflexivity]. }
    rewrite Hrec in Hcall.
    destruct (IH (set_last_failure_time (Some now)
                    (set_failure_count (_failure_count b + 1) b)) w2)
      as (rs & b' & w' & Hrun & Hall & Hs' & Hfc & Hft & Hto & Hnm).
    { exact Hs. }
    { cbn. lia. }
    exists (inr (OperationException e) :: rs), b', w'.
    cbn [call_n]. rewrite Hcall, Hrun. cbn in Hfc, Hft, Hto, Hnm.
    repeat split; auto.
    + constructor; [exists e; reflexivity | exact Hall].
    + lia.
Qed.

(** The failure that reaches the threshold trips a CLOSED breaker. *)
Lemma failure_recorded_trips (b : CircuitBreaker) (now : Q) :
  _state b = CLOSED -> failure_threshold b <= _failure_count b + 1 ->
  failure_recorded b now =
  _trip (set_last_failure_time (Some now)
           (set_failure_count (_failure_count b + 1) b)).
Proof.
  intros Hs Hle. unfold failure_recorded. rewrite Hs.
  apply Z.leb_le in Hle. rewrite Hle. reflexivity.
Qed.

(** No call changes [success_threshold]. *)
Lemma call_keeps_success_threshold (b : CircuitBreaker)
    (func : operation W V E) (w : W) :
  success_threshold (snd (fst (call b func w))) = success_threshold b.
Proof.
  unfold call, state.
  assert (Hthrough : forall b1 w1,
    success_threshold b1 = success_threshold b ->
    success_threshold (snd (fst (let_through b1 func w1)))
    = success_threshold b).
  { intros b1 w1 Hb1. unfold let_through.
    destruct (func w1) as [[v|e] w2]; cbn [fst snd].
    - unfold _on_success. destruct (_state b1); try exact Hb1.
      cbn. destruct (success_threshold b1 <=? _success_count b1 + 1);
        exact Hb1.
    - destruct (time_time w2) as [now w3] eqn:Hnow.
      rewrite (_on_failure_eq b1 w2 w3 now Hnow). unfold failure_recorded.
      cbn [fst snd].
      destruct (_state b1);
        try destruct (failure_threshold b1 <=? _failure_count b1 + 1);
        exact Hb1. }
  unfold let_through in Hthrough.
  assert (Hread : success_threshold (snd (fst
                    match _state b with
                    | OPEN =>
                        let (attempt, w') := _should_attempt_reset b w in
                        if attempt then
                          let b' := set_success_count 0
                                      (set_state HALF_OPEN b) in
                          (_state b', b', w')
                        else (_state b, b, w')
                    | _ => (_state b, b, w)
                    end)) = success_threshold b).
  { destruct (_state b); try reflexivity.
    destruct (_should_attempt_reset b w) as [[|] w1]; reflexivity. }
  destruct (match _state b with
            | OPEN =>
                let (attempt, w') := _should_attempt_reset b w in
                if attempt then
                  let b' := set_success_count 0 (set_state HALF_OPEN b) in
                  (_state b', b', w')
                else (_state b, b, w')
            | _ => (_state b, b, w)
            end) as [[s b1] w1].
  cbn [fst snd] in Hread.
  destruct s; [apply Hthrough; exact Hread | exact Hread
              | apply Hthrough; exact Hread].
Qed.

Lemma call_n_keeps_success_threshold (func : operation W V E) (n : nat) :
  forall (b : CircuitBreaker) (w : W),
    success_threshold (snd (fst (call_n n b func w))) = success_threshold b.
Proof.
  induction n as [|n IH]; intros b w; [reflexivity|].
  rewrite call_n_S.
  pose proof (call_keeps_success_threshold b func w) as Hcall.
  destruct (call b func w) as [[r b1] w1]. cbn [fst snd] in Hcall.
  specialize (IH b1 w1).
  destruct (call_n n b1 func w1) as [[rs b2] w2]. cbn [fst snd] in IH |- *.
  congruence.
Qed.

(** *** The properties of the breaker *)

(** C1. Starting CLOSED with no failure counted and a positive
    [failure_threshold], that many consecutive failed calls (each one ran the
    operation and re-raised its exception) leave the breaker OPEN, and not
    before the last of them.  The breaker after the last of them is known
    field by field: the settings are those of the start, the failure count is
    the threshold, the success count is 0, and the failure time is the value
    [t] that the clock gave when it was read after the last failed
    invocation.  The next call, made while the clock reads less than
    [t + timeout], raises [CircuitBreakerError] whatever the operation is:
    the operation is not run, the breaker is left as it is and the world is
    only advanced by the clock read. *)
Theorem failure_threshold_trips (b : CircuitBreaker) (func : operation W V E)
    (w : W) :
  0 < failure_threshold b ->
  _state b = CLOSED -> _failure_count b = 0 ->
  always_fails func ->
  (forall k : nat, (k < Z.to_nat (failure_threshold b))%nat ->
     _state (snd (fst (call_n k b func w))) = CLOSED) /\
  exists rs b1 w1 e w2 t w' b',
    call_n (Z.to_nat (failure_threshold b) - 1) b func w = (rs, b1, w1) /\
    Forall operation_raised rs /\
    func w1 = (inr e, w2) /\
    time_time w2 = (t, w') /\
    call_n (Z.to_nat (failure_threshold b)) b func w
      = (rs ++ [inr (OperationException e)], b', w') /\
    b' = mkCircuitBreaker (failure_threshold b) (timeout b)
           (success_threshold b) (name b) OPEN (failure_threshold b) 0
           (Some t) /\
    forall (func' : operation W V E) (now : Q) (w'' : W),
      time_time w' = (now, w'') -> (now - t < timeout b)%Q ->
      call b' func' w' = (rejection b', b', w'').
Proof.
  intros Hpos Hs Hfc Hfail. split.
  - intros k Hk.
    destruct (closed_failures_below_threshold func Hfail k b w Hs)
      as (rs & b' & w' & Hrun & _ & Hs' & _); [lia|].
    rewrite Hrun. exact Hs'.
  - destruct (Z.to_nat (failure_threshold b)) as [|n] eqn:Hn; [lia|].
    replace (S n - 1)%nat with n by lia.
    destruct (closed_failures_below_threshold func Hfail n b w Hs)
      as (rs & b1 & w1 & Hrun & Hall & Hs1 & Hfc1 & Hft1 & Hto1 & Hnm1);
      [lia|].
    pose proof (call_n_keeps_success_threshold func n b w) as Hst1.
    rewrite Hrun in Hst1. cbn [fst snd] in Hst1.
    destruct (Hfail w1) as (e & w2 & Hf).
    destruct (time_time w2) as [t w3] eqn:Ht.
    assert (Hopen : _state b1 <> OPEN) by congruence.
    pose proof (call_failure b1 func w1 w2 w3 e t Hopen Hf Ht) as Hcall.
    rewrite (failure_recorded_trips b1 t Hs1) in Hcall by lia.
    assert (Hb' : _trip (set_last_failure_time (Some t)
                           (set_failure_count (_failure_count b1 + 1) b1))
                  = mkCircuitBreaker (failure_threshold b) (timeout b)
                      (success_threshold b) (name b) OPEN
                      (failure_threshold b) 0 (Some t)).
    { unfold _trip, set_success_count, set_state, set_last_failure_time,
        set_failure_count. cbn.
      rewrite Hft1, Hto1, Hst1, Hnm1. f_equal. lia. }
    rewrite Hb' in Hcall.
    exists rs, b1, w1, e, w2, t, w3,
      (mkCircuitBreaker (failure_threshold b) (timeout b)
         (success_threshold b) (name b) OPEN (failure_threshold b) 0
         (Some t)).
    split; [exact Hrun|]. split; [exact Hall|]. split; [exact Hf|].
    split; [exact Ht|].
    split; [rewrite call_n_snoc, Hrun, Hcall; reflexivity|].
    split; [reflexivity|].
    intros func' now w'' Hnow Hlt.
    apply (call_open_early _ func' w3 w'' t now); try reflexivity; auto.
Qed.

Lemma clock_reads_S (n : nat) (w : W) :
  clock_reads (S n) w = snd (time_time (clock_reads n w)).
Proof. reflexivity. Qed.

(** Calls made while the breaker is OPEN and the clock reads early are all
    rejected and leave the breaker as it is. *)
Lemma open_rejects_run (b : CircuitBreaker) (func : operation W V E) (w : W)
    (t : Q) :
  _state b = OPEN -> _last_failure_time b = Some t ->
  forall n : nat,
    (forall k : nat, (k < n)%nat ->
       (fst (time_time (clock_reads k w)) - t < timeout b)%Q) ->
    call_n n b func w = (repeat (rejection b) n, b, clock_reads n w).
Proof.
  intros Hs Ht n. induction n as [|n IH]; intros Hearly.
  - reflexivity.
  - rewrite call_n_snoc, IH by (intros k Hk; apply Hearly; lia).
    destruct (time_time (clock_reads n w)) as [now w1] eqn:Hnow.
    rewrite (call_open_early b func (clock_reads n w) w1 t now Hs Ht Hnow).
    + rewrite clock_reads_S, Hnow, <- repeat_cons. reflexivity.
    + specialize (Hearly n (Nat.lt_succ_diag_r n)). rewrite Hnow in Hearly.
      exact Hearly.
Qed.

(** C2. With the breaker OPEN and a failure time [t] recorded: a call whose
    clock read is earlier than [t + timeout] is rejected without running the
    operation, and so is every call of a run of such calls, the breaker
    staying as it is; at the first state read or call whose clock read is at
    or after [t + timeout] the breaker becomes HALF_OPEN with a success count
    of 0, and that call runs the operation and reports its outcome. *)
Theorem open_rejects_until_timeout (b : CircuitBreaker)
    (func : operation W V E) (w w1 : W) (t now : Q) :
  _state b = OPEN -> _last_failure_time b = Some t ->
  time_time w = (now, w1) ->
  ((now - t < timeout b)%Q ->
     state b w = (OPEN, b, w1) /\ call b func w = (rejection b, b, w1)) /\
  (forall n : nat,
     (forall k : nat, (k < n)%nat ->
        (fst (time_time (clock_reads k w)) - t < timeout b)%Q) ->
     call_n n b func w = (repeat (rejection b) n, b, clock_reads n w)) /\
  ((timeout b <= now - t)%Q ->
     let b_half := set_success_count 0 (set_state HALF_OPEN b) in
     state b w = (HALF_OPEN, b_half, w1) /\
     _state b_half = HALF_OPEN /\ _success_count b_half = 0 /\
     call b func w = let_through b_half func w1 /\
     fst (fst (call b func w)) =
       match fst (func w1) with
       | inl v => inl v
       | inr e => inr (OperationException e)
       end).
Proof.
  intros Hs Ht Hnow. split; [|split].
  - intros Hlt. split.
    + exact (state_open_early b w w1 t now Hs Ht Hnow Hlt).
    + exact (call_open_early b func w w1 t now Hs Ht Hnow Hlt).
  - exact (open_rejects_run b func w t Hs Ht).
  - intros Hle b_half.
    pose proof (call_open_elapsed b func w w1 t now Hs Ht Hnow Hle) as Hcall.
    fold b_half in Hcall.
    repeat split.
    + exact (state_open_elapsed b w w1 t now Hs Ht Hnow Hle).
    + exact Hcall.
    + rewrite Hcall. unfold let_through.
      destruct (func w1) as [[v|e] w2]; [reflexivity|].
      cbn [fst]. destruct (_on_failure b_half w2). reflexivity.
Qed.

(** While HALF_OPEN and below the success threshold, successes only count
    up. *)
Lemma half_open_successes_below_threshold (func : operation W V E) :
  always_succeeds func ->
  forall (n : nat) (b : CircuitBreaker) (w : W),
    _state b = HALF_OPEN ->
    _success_count b + Z.of_nat n < success_threshold b ->
    exists rs b' w',
      call_n n b func w = (rs, b', w') /\
      Forall operation_returned rs /\
      _state b' = HALF_OPEN /\
      _success_count b' = _success_count b + Z.of_nat n /\
      success_threshold b' = success_threshold b.
Proof.
  intros Hok n. induction n as [|n IH]; intros b w Hs Hlt.
  - exists [], b, w. cbn. repeat split; auto. lia.
  - destruct (Hok w) as (v & w1 & Hf).
    assert (Hopen : _state b <> OPEN) by congruence.
    pose proof (call_success b func w w1 v Hopen Hf) as Hcall.
    assert (Hrec : _on_success b = set_success_count (_success_count b + 1) b).
    { unfold _on_success. rewrite Hs. cbn.
      destruct (success_threshold b <=? _success_count b + 1) eqn:Hc;
        [apply Z.leb_le in Hc; lia | reflexivity]. }
    rewrite Hrec in Hcall.
    destruct (IH (set_success_count (_success_count b + 1) b) w1)
      as (rs & b' & w' & Hrun & Hall & Hs' & Hsc & Hst).
    { exact Hs. }
    { cbn. lia. }
    exists (inl v :: rs), b', w'.
    rewrite call_n_S, Hcall, Hrun. cbn in Hsc, Hst.
    repeat split; auto.
    + constructor; [exists v; reflexivity | exact Hall].
    + lia.
Qed.

(** C3. In HALF_OPEN with a positive [success_threshold] and no success
    counted yet, that many consecutive successful calls close the circuit with
    both counters at 0, and not before the last of them; a failed call in
    HALF_OPEN re-raises the failure and leaves the breaker OPEN with the
    failure time recorded and the success count at 0, so that a call made
    before a full [timeout] has elapsed since then is rejected. *)
Theorem half_open_closes_or_reopens (b : CircuitBreaker)
    (func : operation W V E) (w : W) :
  _state b = HALF_OPEN ->
  (0 < success_threshold b -> _success_count b = 0 -> always_succeeds func ->
     (forall k : nat, (k < Z.to_nat (success_threshold b))%nat ->
        _state (snd (fst (call_n k b func w))) = HALF_OPEN) /\
     exists rs b' w',
       call_n (Z.to_nat (success_threshold b)) b func w = (rs, b', w') /\
       Forall operation_returned rs /\
       _state b' = CLOSED /\ _failure_count b' = 0 /\ _success_count b' = 0) /\
  (forall (e : E) (w1 w2 : W) (now : Q),
     func w = (inr e, w1) -> time_time w1 = (now, w2) ->
     exists b',
       call b func w = (inr (OperationException e), b', w2) /\
       _state b' = OPEN /\ _last_failure_time b' = Some now /\
       _success_count b' = 0 /\
       forall (func' : operation W V E) (now' : Q) (w3 : W),
         time_time w2 = (now', w3) -> (now' - now < timeout b)%Q ->
         call b' func' w2 = (rejection b', b', w3)).
Proof.
  intros Hs. split.
  - intros Hpos Hsc Hok. split.
    + intros k Hk.
      destruct (half_open_successes_below_threshold func Hok k b w Hs)
        as (rs & b' & w' & Hrun & _ & Hs' & _); [lia|].
      rewrite Hrun. exact Hs'.
    + destruct (Z.to_nat (success_threshold b)) as [|n] eqn:Hn; [lia|].
      destruct (half_open_successes_below_threshold func Hok n b w Hs)
        as (rs & b1 & w1 & Hrun & Hall & Hs1 & Hsc1 & Hst1); [lia|].
      destruct (Hok w1) as (v & w2 & Hf).
      assert (Hopen : _state b1 <> OPEN) by congruence.
      pose proof (call_success b1 func w1 w2 v Hopen Hf) as Hcall.
      exists (rs ++ [inl v]), (_on_success b1), w2.
      rewrite call_n_snoc, Hrun, Hcall.
      assert (Hclose : _on_success b1 =
                       _reset (set_success_count (_success_count b1 + 1) b1)).
      { unfold _on_success. rewrite Hs1. cbn.
        destruct (success_threshold b1 <=? _success_count b1 + 1) eqn:Hc;
          [reflexivity | apply Z.leb_gt in Hc; lia]. }
      rewrite Hclose. repeat split.
      apply Forall_app. split; [exact Hall|].
      constructor; [exists v; reflexivity | constructor].
  - intros e w1 w2 now Hf Hnow.
    assert (Hopen : _state b <> OPEN) by congruence.
    exists (failure_recorded b now).
    assert (Hrec : failure_recorded b now =
                   _trip (set_last_failure_time (Some now)
                            (set_failure_count (_failure_count b + 1) b))).
    { unfold failure_recorded. rewrite Hs. reflexivity. }
    split; [exact (call_failure b func w w1 w2 e now Hopen Hf Hnow)|].
    rewrite Hrec. repeat split.
    intros func' now' w3 Hnow' Hlt.
    apply (call_open_early _ func' w2 w3 now now'); auto.
Qed.

Lemma well_formed_state (b b' : CircuitBreaker) (w w' : W) (s : CircuitState) :
  well_formed b -> state b w = (s, b', w') -> well_formed b'.
Proof.
  intros (Hopen & Hzero & Hnn) Hst. unfold state in Hst.
  destruct (_state b) eqn:Hs.
  - inversion Hst; subst. unfold well_formed. rewrite Hs. auto.
  - destruct (_should_attempt_reset b w) as [[|] w1];
      inversion Hst; subst; unfold well_formed; cbn.
    + split; [intro Hx; discriminate Hx | split; [reflexivity | lia]].
    + rewrite Hs. auto.
  - inversion Hst; subst. unfold well_formed. rewrite Hs. auto.
Qed.

Lemma well_formed_on_success (b : CircuitBreaker) :
  well_formed b -> well_formed (_on_success b).
Proof.
  intros (Hopen & Hzero & Hnn). unfold _on_success.
  destruct (_state b) eqn:Hs.
  - unfold well_formed. cbn. rewrite Hs. auto.
  - unfold well_formed. rewrite Hs. auto.
  - cbn. destruct (success_threshold b <=? _success_count b + 1);
      unfold well_formed; cbn.
    + repeat split; [discriminate | lia].
    + rewrite Hs. repeat split; [discriminate | congruence | lia].
Qed.

Lemma well_formed_on_failure (b b' : CircuitBreaker) (w w' : W) :
  well_formed b -> _on_failure b w = (b', w') -> well_formed b'.
Proof.
  intros (Hopen & Hzero & Hnn) Hf.
  destruct (time_time w) as [now w1] eqn:Hnow.
  rewrite (_on_failure_eq b w w1 now Hnow) in Hf. inversion Hf; subst.
  unfold failure_recorded.
  destruct (_state b) eqn:Hs;
    try destruct (failure_threshold b <=? _failure_count b + 1);
    unfold well_formed; cbn; try rewrite Hs;
    repeat split; eauto; try discriminate; try lia.
Qed.

Lemma well_formed_reachable (b : CircuitBreaker) :
  @reachable W _ V E b -> well_formed b.
Proof.
  induction 1 as [ft tmo st nm | b b' w w' s _ IH Hst
                 | b b' func w w' r _ IH Hcall | b _ IH].
  - unfold well_formed. cbn. repeat split; [discriminate | lia].
  - exact (well_formed_state b b' w w' s IH Hst).
  - unfold call in Hcall.
    destruct (state b w) as [[s b1] w1] eqn:Hst.
    pose proof (well_formed_state b b1 w w1 s IH Hst) as Hwf1.
    assert (Hthrough :
              s <> OPEN -> let_through b1 func w1 = (r, b', w') ->
              well_formed b').
    { intros _ Hlt. unfold let_through in Hlt.
      destruct (func w1) as [[v|e] w2].
      - inversion Hlt; subst. exact (well_formed_on_success b1 Hwf1).
      - destruct (_on_failure b1 w2) as [b2 w3] eqn:Hf.
        inversion Hlt; subst.
        exact (well_formed_on_failure b1 b' w2 w' Hwf1 Hf). }
    destruct s.
    + apply Hthrough; [discriminate | exact Hcall].
    + inversion Hcall; subst. exact Hwf1.
    + apply Hthrough; [discriminate | exact Hcall].
  - destruct IH as (_ & _ & Hnn). unfold well_formed, reset. cbn.
    repeat split; [discriminate | lia].
Qed.

(** C4, as the code has it.  After every state transition the success count
    is 0.  The failure count is 0 after the transitions into CLOSED (the
    closing success in HALF_OPEN and the manual reset) only: a trip (CLOSED to
    OPEN, HALF_OPEN to OPEN) leaves it at the value just incremented, and the
    lazy transition from OPEN to HALF_OPEN leaves it as it was.  A transition
    is one of these five. *)
Theorem transition_counters (b b' : CircuitBreaker) :
  transition b b' ->
  _success_count b' = 0 /\
  match _state b' with
  | CLOSED => _failure_count b' = 0
  | OPEN => _failure_count b' = _failure_count b + 1
  | HALF_OPEN => _failure_count b' = _failure_count b
  end /\
  (b' = reset b \/
   (_state b = CLOSED /\ _state b' = OPEN) \/
   (_state b = OPEN /\ _state b' = HALF_OPEN) \/
   (_state b = HALF_OPEN /\ _state b' = OPEN) \/
   (_state b = HALF_OPEN /\ _state b' = CLOSED)).
Proof.
  intros Htr. destruct Htr as [b b' w w' s Hst Hne | b Hne
                              | b b' w w' Hf Hne | b].
  - unfold state in Hst. destruct (_state b) eqn:Hs.
    + inversion Hst; subst. congruence.
    + destruct (_should_attempt_reset b w) as [[|] w1];
        inversion Hst; subst; [|congruence].
      cbn. repeat split. auto 6.
    + inversion Hst; subst. congruence.
  - unfold _on_success in *. destruct (_state b) eqn:Hs.
    + cbn in Hne. congruence.
    + congruence.
    + cbn in *.
      destruct (success_threshold b <=? _success_count b + 1);
        cbn in *; [|congruence].
      repeat split. auto 6.
  - destruct (time_time w) as [now w1] eqn:Hnow.
    rewrite (_on_failure_eq b w w1 now Hnow) in Hf. inversion Hf; subst.
    unfold failure_recorded in *.
    destruct (_state b) eqn:Hs;
      try destruct (failure_threshold b <=? _failure_count b + 1);
      cbn in *; try congruence; repeat split; auto 6.
  - cbn. repeat split. auto.
Qed.

(** C9. From any breaker, [reset] yields CLOSED with both counters at 0, and
    a second [reset] changes nothing. *)
Theorem reset_closes_and_is_idempotent (b : CircuitBreaker) :
  _state (reset b) = CLOSED /\
  _failure_count (reset b) = 0 /\
  _success_count (reset b) = 0 /\
  reset (reset b) = reset b.
Proof. repeat split. Qed.

(** C10. [get_stats] changes neither the breaker nor the world (it does not
    even read the clock) and reports the stored attributes; on an OPEN
    breaker whose timeout has elapsed it reports "open" with the counters as
    stored, however often it is called, where a [state] read at the same
    moment returns HALF_OPEN, after which [get_stats] reports "half_open". *)
Theorem get_stats_is_read_only (b : CircuitBreaker) (w : W) :
  snd (fst (get_stats b w)) = b /\
  snd (get_stats b w) = w /\
  fst (fst (get_stats b w)) =
    mkStats (name b) (CircuitState_value (_state b)) (_failure_count b)
      (_success_count b) (_last_failure_time b) /\
  forall (t now : Q) (w1 : W),
    _state b = OPEN -> _last_failure_time b = Some t ->
    time_time w = (now, w1) -> (timeout b <= now - t)%Q ->
    stats_state (fst (fst (get_stats b w))) = "open"%string /\
    stats_failure_count (fst (fst (get_stats b w))) = _failure_count b /\
    stats_success_count (fst (fst (get_stats b w))) = _success_count b /\
    fst (fst (state b w)) = HALF_OPEN /\
    stats_state (fst (fst (get_stats (snd (fst (state b w))) w1)))
      = "half_open"%string.
Proof.
  repeat split; cbn.
  - rewrite H0. reflexivity.
  - rewrite (state_open_elapsed b w w1 t now); auto.
  - rewrite (state_open_elapsed b w w1 t now); auto.
Qed.

End WithWorld.

(** A rejected call leaves the invocation log of an instrumented operation
    as it was: the operation was not invoked. *)
Lemma rejected_call_invokes_nothing {W : Type} `{PyWorld W} {V E : Type}
    (b : CircuitBreaker) (func : operation W V E) (w w' : W)
    (log : list (V + E)) (t now : Q) :
  _state b = OPEN -> _last_failure_time b = Some t ->
  time_time w = (now, w') -> (now - t < timeout b)%Q ->
  call b (logged func) (w, log) = (rejection b, b, (w', log)).
Proof.
  intros Hs Ht Hnow Hlt.
  apply (call_open_early b (logged func) (w, log) (w', log) t now Hs Ht);
    [|exact Hlt].
  cbn. rewrite Hnow. reflexivity.
Qed.

(** A call that is let through invokes the operation exactly once. *)
Lemma let_through_invokes_once {W : Type} `{PyWorld W} {V E : Type}
    (b : CircuitBreaker) (func : operation W V E) (w : W)
    (log : list (V + E)) :
  exists w', snd (let_through b (logged func) (w, log))
             = (w', fst (func w) :: log).
Proof.
  unfold let_through, logged. cbn [fst snd].
  destruct (func w) as [[v|e] w1]; cbn [fst snd].
  - exists w1. reflexivity.
  - unfold _on_failure. cbn [time_time LoggedWorld fst snd].
    destruct (time_time w1) as [now w2].
    exists w2.
    destruct (_state _); try reflexivity;
      destruct (_ <=? _); reflexivity.
Qed.

(** *** Runs on the simulated clock *)

Import simulation.

Lemma failing_always_fails : always_fails failing.
Proof. intros w. exists "boom"%string, (w + 1)%Q. reflexivity. Defined.

Lemma succeeding_always_succeeds : always_succeeds succeeding.
Proof. intros w. exists tt, (w + 1)%Q. reflexivity. Defined.

(** Two failures through [breaker], the first call at clock value 0: the
    second failure is recorded at clock value 2, and a call at clock value 2
    is rejected. *)
Lemma failure_threshold_trips_witness :
  call_n 2 breaker failing 0%Q
    = ([inr (OperationException "boom"%string);
        inr (OperationException "boom"%string)],
       mkCircuitBreaker 2 60 2 "default" OPEN 2 0 (Some 2%Q), 2%Q) /\
  call (mkCircuitBreaker 2 60 2 "default" OPEN 2 0 (Some 2%Q)) succeeding 2%Q
    = (rejection (mkCircuitBreaker 2 60 2 "default" OPEN 2 0 (Some 2%Q)),
       mkCircuitBreaker 2 60 2 "default" OPEN 2 0 (Some 2%Q), 2%Q).
Proof.
  destruct (@failure_threshold_trips Q SimClock unit string breaker failing
              0%Q eq_refl eq_refl eq_refl failing_always_fails)
    as (_ & rs & b1 & w1 & e & w2 & t & w' & b' & Hpre & _ & Hf & Ht & Hrun
        & Hb' & Hrej).
  vm_compute in Hpre. inversion Hpre; subst rs b1 w1; clear Hpre.
  vm_compute in Hf. inversion Hf; subst e w2; clear Hf.
  vm_compute in Ht. inversion Ht; subst t w'; clear Ht.
  subst b'. split.
  - exact Hrun.
  - apply (Hrej succeeding 2%Q 2%Q); reflexivity.
Defined.

(** [open_breaker] called at clock value 30 (early) and at clock value 100
    (the timeout has elapsed). *)
Lemma open_rejects_until_timeout_witness :
  (state open_breaker 30%Q = (OPEN, open_breaker, 30%Q) /\
   call open_breaker failing 30%Q
     = (rejection open_breaker, open_breaker, 30%Q)) /\
  (state open_breaker 100%Q = (HALF_OPEN, half_open_breaker, 100%Q) /\
   fst (fst (call open_breaker succeeding 100%Q)) = inl tt).
Proof.
  split.
  - apply (proj1 (@open_rejects_until_timeout Q SimClock unit string open_breaker failing
                    30%Q 30%Q 10%Q 30%Q eq_refl eq_refl eq_refl)).
    reflexivity.
  - destruct (proj2 (proj2 (@open_rejects_until_timeout Q SimClock unit string open_breaker succeeding
                    100%Q 100%Q 10%Q 100%Q eq_refl eq_refl eq_refl)))
      as (Hstate & _ & _ & _ & Hres).
    + unfold Qle. cbn. lia.
    + split; [exact Hstate | exact Hres].
Defined.

(** [half_open_breaker]: two successes from clock value 100, and one failure
    at clock value 100. *)
Lemma half_open_closes_or_reopens_witness :
  (exists rs b' w',
     call_n (Z.to_nat (success_threshold half_open_breaker))
       half_open_breaker succeeding 100%Q = (rs, b', w') /\
     Forall operation_returned rs /\
     _state b' = CLOSED /\ _failure_count b' = 0 /\ _success_count b' = 0) /\
  (exists b',
     call half_open_breaker failing 100%Q
       = (inr (OperationException "boom"%string), b', 101%Q) /\
     _state b' = OPEN /\ _last_failure_time b' = Some 101%Q /\
     _success_count b' = 0).
Proof.
  pose proof (@half_open_closes_or_reopens Q SimClock unit string half_open_breaker succeeding 100%Q
                eq_refl) as [Hclose _].
  pose proof (@half_open_closes_or_reopens Q SimClock unit string half_open_breaker failing 100%Q
                eq_refl) as [_ Hreopen].
  split.
  - apply Hclose;
      [reflexivity | reflexivity | exact succeeding_always_succeeds].
  - destruct (Hreopen "boom"%string 101%Q 101%Q 101%Q eq_refl eq_refl)
      as (b' & Hcall & Hs & Ht & Hsc & _).
    exists b'. repeat split; assumption.
Defined.

(** The breaker that [breaker1] becomes when one failure is recorded at clock
    value 1. *)
Lemma breaker1_trips :
  @transition Q SimClock breaker1
    (mkCircuitBreaker 1 60 2 "default" OPEN 1 0 (Some 1%Q)).
Proof.
  apply (transition_on_failure breaker1 _ 1%Q 1%Q);
    [reflexivity | discriminate].
Defined.

(** C4 fails as stated: the first failed call through a breaker with a
    failure threshold of 1 takes it from CLOSED to OPEN, and the failure count
    is 1 afterwards, not 0. *)
Lemma trip_keeps_failure_count :
  _state breaker1 = CLOSED /\
  call breaker1 failing 0%Q
    = (inr (OperationException "boom"%string),
       mkCircuitBreaker 1 60 2 "default" OPEN 1 0 (Some 1%Q), 1%Q) /\
  @transition Q SimClock breaker1
    (mkCircuitBreaker 1 60 2 "default" OPEN 1 0 (Some 1%Q)) /\
  ~ (_failure_count (mkCircuitBreaker 1 60 2 "default" OPEN 1 0 (Some 1%Q)) = 0
     /\ _success_count (mkCircuitBreaker 1 60 2 "default" OPEN 1 0 (Some 1%Q))
        = 0).
Proof.
  split; [reflexivity|]. split; [reflexivity|].
  split; [exact breaker1_trips|].
  cbn. intros [Hfc _]. discriminate Hfc.
Qed.

Lemma transition_counters_witness :
  _success_count (mkCircuitBreaker 1 60 2 "default" OPEN 1 0 (Some 1%Q)) = 0 /\
  _failure_count (mkCircuitBreaker 1 60 2 "default" OPEN 1 0 (Some 1%Q))
    = _failure_count breaker1 + 1.
Proof.
  destruct (@transition_counters Q SimClock breaker1 _ breaker1_trips)
    as (Hsc & Hfc & _).
  split; [exact Hsc | exact Hfc].
Defined.

(** [get_stats] on [open_breaker] at clock value 100. *)
Lemma get_stats_is_read_only_witness :
  stats_state (fst (fst (get_stats open_breaker 100%Q))) = "open"%string /\
  fst (fst (state open_breaker 100%Q)) = HALF_OPEN.
Proof.
  destruct (@get_stats_is_read_only Q SimClock open_breaker 100%Q) as (_ & _ & _ & Hopen).
  destruct (Hopen 10%Q 100%Q 100%Q eq_refl eq_refl eq_refl)
    as (Hs & _ & _ & Hst & _).
  - unfold Qle. cbn. lia.
  - split; [exact Hs | exact Hst].
Defined.

End circuit_breaker_facts.

(** ** Properties of patterns/retry.py *)

Module retry_facts.

Import retry.

Section WithWorld.

Context {W : Type} `{PyWorld W} {V E : Type}.

Variable func : operation W V E.

(** One iteration of the loop of [execute] over the logged operation. *)
Lemma execute_loop_step (k : nat) (attempt : Z) (delay : Q) (last : option E)
    (self : Retry E) (w w1 : W) (log : list (V + E)) (r : V + E) :
  func w = (r, w1) ->
  execute_loop (S k) attempt delay last self (logged func) (w, log) =
  let self1 := set_attempts (attempt + 1) self in
  match r with
  | inl result => (inl result, self1, (w1, r :: log))
  | inr e =>
      if exceptions self e then
        if attempt <? max_attempts self - 1 then
          if Qle_bool 0 delay then
            execute_loop k (attempt + 1) (delay * backoff_factor self)
              (Some e) self1 (logged func) (time_sleep delay w1, r :: log)
          else (inr (SleepValueError delay), self1, (w1, r :: log))
        else
          (inr (RetryExhaustedError (max_attempts self) (Some e)),
           self1, (w1, r :: log))
      else (inr (OperationException e), self1, (w1, r :: log))
  end.
Proof.
  intros Hf. cbn [execute_loop]. unfold logged at 1. cbn [fst snd].
  rewrite Hf. destruct r as [v|e]; reflexivity.
Qed.

Lemma same_configuration_set_attempts (n : Z) (self : Retry E) :
  same_configuration (set_attempts n self) self.
Proof. repeat split. Qed.

(** The loop of [execute], whatever the operation does: its outcome, the
    invocations it made, and what it leaves in the policy object. *)
Lemma execute_loop_trace (k : nat) :
  forall (attempt : Z) (delay : Q) (last : option E) (self : Retry E)
         (w : W) (log : list (V + E)),
  exists res self' w' new,
    execute_loop k attempt delay last self (logged func) (w, log)
      = (res, self', (w', new ++ log)) /\
    same_configuration self' self /\
    (List.length new <= k)%nat /\
    verdict self last new res /\
    match new with
    | [] => self' = self /\ k = O
    | _ :: _ => attempts self' = attempt + Z.of_nat (List.length new)
    end.
Proof.
  induction k as [|k IH]; intros attempt delay last self w log.
  - exists (inr (RetryExhaustedError (max_attempts self) last)), self, w, [].
    cbn. repeat split; auto.
  - destruct (func w) as [r w1] eqn:Hf.
    rewrite (execute_loop_step k attempt delay last self w w1 log r Hf).
    cbn zeta.
    assert (Hone : forall res,
      match r with
      | inl v => res = inl v
      | inr e =>
          if exceptions self e then
            res = inr (RetryExhaustedError (max_attempts self) (Some e)) \/
            exists d, res = inr (SleepValueError d)
          else res = inr (OperationException e)
      end ->
      exists res0 self' w' new,
        (res, set_attempts (attempt + 1) self, (w1, r :: log))
          = (res0, self', (w', new ++ log)) /\
        same_configuration self' self /\
        (List.length new <= S k)%nat /\
        verdict self last new res0 /\
        match new with
        | [] => self' = self /\ S k = O
        | _ :: _ => attempts self' = attempt + Z.of_nat (List.length new)
        end).
    { intros res Hres.
      exists res, (set_attempts (attempt + 1) self), w1, [r].
      repeat split; cbn; auto; lia. }
    destruct r as [v|e].
    + apply Hone. reflexivity.
    + destruct (exceptions self e) eqn:Hexc.
      * destruct (attempt <? max_attempts self - 1).
        -- destruct (Qle_bool 0 delay).
           ++ destruct (IH (attempt + 1) (delay * backoff_factor self)%Q
                          (Some e) (set_attempts (attempt + 1) self)
                          (time_sleep delay w1) (inr e :: log))
                as (res & self' & w' & new & Hrun & Hcfg & Hlen & Hv & Hatt).
              exists res, self', w', (new ++ [inr e]).
              rewrite <- app_assoc. cbn [app].
              split; [exact Hrun|].
              split.
              { destruct Hcfg as (H1 & H2 & H3 & H4). repeat split; assumption. }
              split; [rewrite length_app; cbn; lia|].
              destruct new as [|r0 older].
              ** destruct Hatt as [-> _]. cbn in Hv |- *.
                 rewrite Hexc. repeat split; auto.
              ** cbn [app verdict] in Hv |- *.
                 destruct Hv as [Hall Hhead].
                 split.
                 { split; [|exact Hhead].
                   apply Forall_app. split; [exact Hall|].
                   constructor; [|constructor].
                   exists e. split; [reflexivity | exact Hexc]. }
                 rewrite Hatt. cbn [List.length]. rewrite length_app. cbn. lia.
           ++ apply Hone. right. eexists. reflexivity.
        -- apply Hone. left. reflexivity.
      * apply Hone. reflexivity.
Qed.

(** When every invocation fails with a caught exception and no delay is
    negative, the loop runs all its iterations. *)
Lemma execute_loop_exhausts (exc : E -> bool) (m : Z) (bf : Q) :
  always_fails_retryably exc func -> (0 <= bf)%Q ->
  forall (k : nat) (attempt : Z) (delay : Q) (last : option E)
         (self : Retry E) (w : W) (log : list (V + E)),
    exceptions self = exc -> max_attempts self = m ->
    backoff_factor self = bf ->
    attempt + Z.of_nat (S k) = m -> (0 <= delay)%Q ->
    exists e self' w' new,
      execute_loop (S k) attempt delay last self (logged func) (w, log)
        = (inr (RetryExhaustedError m (Some e)), self',
           (w', inr e :: new ++ log)) /\
      List.length new = k.
Proof.
  intros Hfail Hbf k.
  induction k as [|k IH];
    intros attempt delay last self w log Hexc Hmax Hfac Hatt Hdelay;
    destruct (Hfail w) as (e & w1 & Hf & Hcaught);
    rewrite (execute_loop_step _ attempt delay last self w w1 log _ Hf);
    cbn zeta; rewrite Hexc, Hcaught, Hmax.
  - destruct (attempt <? m - 1) eqn:Hlt; [apply Z.ltb_lt in Hlt; lia|].
    exists e, (set_attempts (attempt + 1) self), w1, []. split; reflexivity.
  - destruct (attempt <? m - 1) eqn:Hlt; [|apply Z.ltb_ge in Hlt; lia].
    apply Qle_bool_iff in Hdelay. rewrite Hdelay.
    apply Qle_bool_iff in Hdelay.
    destruct (IH (attempt + 1) (delay * backoff_factor self)%Q (Some e)
                (set_attempts (attempt + 1) self) (time_sleep delay w1)
                (inr e :: log))
      as (e' & self' & w' & new & Hrun & Hlen);
      try assumption.
    + lia.
    + rewrite Hfac. apply Qmult_le_0_compat; assumption.
    + exists e', self', w', (new ++ [inr e]).
      rewrite <- app_assoc. cbn [app].
      split; [exact Hrun|]. rewrite length_app. cbn. lia.
Qed.

(** Without an observer, the function that the [retry] decorator builds runs
    the same loop as [execute]. *)
Lemma wrapper_loop_execute_loop (k : nat) :
  forall (attempt : Z) (delay : Q) (last : option E) (self : Retry E) (w : W),
    wrapper_loop (max_attempts self) (backoff_factor self) (exceptions self)
      None func k attempt delay last w
    = (fst (fst (execute_loop k attempt delay last self func w)),
       snd (execute_loop k attempt delay last self func w)).
Proof.
  induction k as [|k IH]; intros attempt delay last self w.
  - reflexivity.
  - cbn [wrapper_loop execute_loop].
    destruct (func w) as [[v|e] w1]; [reflexivity|].
    cbn [exceptions max_attempts backoff_factor set_attempts].
    destruct (exceptions self e); [|reflexivity].
    destruct (attempt <? max_attempts self - 1); [|reflexivity].
    destruct (Qle_bool 0 delay); [|reflexivity].
    exact (IH (attempt + 1) (delay * backoff_factor self)%Q (Some e)
             (set_attempts (attempt + 1) self) (time_sleep delay w1)).
Qed.

(** The value that [attempts] holds when [execute] starts is overwritten
    before it is ever read. *)
Lemma execute_loop_forgets_attempts (k : nat) (attempt a : Z) (delay : Q)
    (last : option E) (self : Retry E) (w : W) :
  execute_loop (S k) attempt delay last (set_attempts a self) func w
  = execute_loop (S k) attempt delay last self func w.
Proof. reflexivity. Qed.

End WithWorld.

(** C5. For a policy with [max_attempts >= 1]: if every invocation fails with
    an exception the policy retries (and the delays are not negative, as the
    data model of a policy has them), [execute] invokes the operation exactly
    [max_attempts] times and raises [RetryExhaustedError] from the exception
    of the last invocation; whatever the operation does, an invocation that
    fails with an exception the policy does not retry is the last invocation
    made, every earlier one failed with a retried exception, and [execute]
    raises that very exception, not [RetryExhaustedError].  The function
    built by the [retry] decorator without an observer has the same outcome
    and effect. *)
Theorem execute_exhausts_or_propagates {W : Type} `{PyWorld W} {V E : Type}
    (self : Retry E) (func : operation W V E) (w : W) :
  1 <= max_attempts self ->
  ((0 <= initial_delay self)%Q -> (0 <= backoff_factor self)%Q ->
   always_fails_retryably (exceptions self) func ->
   exists e self' w' older,
     execute self (logged func) (w, [])
       = (inr (RetryExhaustedError (max_attempts self) (Some e)), self',
          (w', inr e :: older)) /\
     Z.of_nat (List.length (inr e :: older)) = max_attempts self) /\
  (exists res self' w' log,
     execute self (logged func) (w, []) = (res, self', (w', log)) /\
     forall e : E,
       In (inr e) log -> exceptions self e = false ->
       res = inr (OperationException e) /\
       exists older,
         log = inr e :: older /\ Forall (caught (exceptions self)) older) /\
  wrapper (max_attempts self) (initial_delay self) (backoff_factor self)
    (exceptions self) None func w
  = (fst (fst (execute self func w)), snd (execute self func w)).
Proof.
  intros Hmax. split; [|split].
  - intros Hdelay Hbf Hfail. unfold execute.
    destruct (Z.to_nat (max_attempts self)) as [|k] eqn:Hk; [lia|].
    destruct (execute_loop_exhausts func (exceptions self) (max_attempts self)
                (backoff_factor self) Hfail Hbf k 0 (initial_delay self) None
                self w [])
      as (e & self' & w' & new & Hrun & Hlen); auto; [lia|].
    exists e, self', w', new. rewrite app_nil_r in Hrun.
    split; [exact Hrun|]. cbn [List.length]. lia.
  - unfold execute.
    destruct (execute_loop_trace func (Z.to_nat (max_attempts self)) 0
                (initial_delay self) None self w [])
      as (res & self' & w' & new & Hrun & _ & _ & Hv & _).
    rewrite app_nil_r in Hrun.
    exists res, self', w', new. split; [exact Hrun|].
    intros e Hin Hexc.
    destruct new as [|r older]; [destruct Hin|].
    cbn [verdict] in Hv. destruct Hv as [Hall Hhead].
    assert (Hr : r = inr e).
    { destruct Hin as [Hr|Hin]; [exact Hr|].
      rewrite Forall_forall in Hall.
      destruct (Hall _ Hin) as (e0 & Heq & Hc).
      inversion Heq; subst. congruence. }
    subst r. rewrite Hexc in Hhead.
    split; [exact Hhead|]. exists older. split; [reflexivity | exact Hall].
  - apply wrapper_loop_execute_loop.
Qed.

(** C8, as the code has it.  [execute] leaves the configuration of the policy
    object as it is but stores the attempt count in its [attempts] attribute:
    after an execution that invoked the operation at least once, [attempts]
    is the number of invocations made, and it stays there; the object is left
    untouched only when nothing is invoked, which needs [max_attempts < 1].
    The value found in [attempts] has no influence on an execution: with
    [max_attempts >= 1] the outcome, the final policy and the world are the
    same whatever it was. *)
Theorem execute_stores_attempts {W : Type} `{PyWorld W} {V E : Type}
    (self : Retry E) (func : operation W V E) (w : W) :
  (exists res self' w' log,
     execute self (logged func) (w, []) = (res, self', (w', log)) /\
     same_configuration self' self /\
     match log with
     | [] => self' = self /\ max_attempts self < 1
     | _ :: _ => attempts self' = Z.of_nat (List.length log)
     end) /\
  (forall a : Z,
     1 <= max_attempts self ->
     execute (set_attempts a self) func w = execute self func w).
Proof.
  split.
  - unfold execute.
    destruct (execute_loop_trace func (Z.to_nat (max_attempts self)) 0
                (initial_delay self) None self w [])
      as (res & self' & w' & new & Hrun & Hcfg & _ & _ & Hatt).
    rewrite app_nil_r in Hrun.
    exists res, self', w', new. split; [exact Hrun|]. split; [exact Hcfg|].
    destruct new as [|r older]; [|exact Hatt].
    destruct Hatt as [Hself Hk]. split; [exact Hself | lia].
  - intros a Hmax. unfold execute. cbn [max_attempts initial_delay set_attempts].
    destruct (Z.to_nat (max_attempts self)) as [|k] eqn:Hk; [lia|].
    apply execute_loop_forgets_attempts.
Qed.

(** *** Runs on the simulated clock *)

Import simulation.

Lemma failing_always_fails_retryably :
  always_fails_retryably (exceptions policy) failing.
Proof.
  intros w. exists "boom"%string, (w + 1)%Q. split; reflexivity.
Defined.

(** [policy] executing [failing] from clock value 0. *)
Lemma execute_exhausts_or_propagates_witness :
  exists e self' w' older,
    execute policy (logged failing) (0%Q, [])
      = (inr (RetryExhaustedError (max_attempts policy) (Some e)), self',
         (w', inr e :: older)) /\
    Z.of_nat (List.length (@inr unit string e :: older)) = max_attempts policy.
Proof.
  apply (proj1 (@execute_exhausts_or_propagates Q SimClock unit string
                  policy failing 0%Q ltac:(cbn; lia)));
    [unfold Qle; cbn; lia | unfold Qle; cbn; lia
    | exact failing_always_fails_retryably].
Defined.

(** C8 fails as stated: one execution of [policy] over an operation that
    always fails leaves 3 in the [attempts] attribute of the policy object,
    which held 0 before. *)
Lemma execute_changes_policy_object :
  attempts policy = 0 /\
  execute policy failing 0%Q
    = (inr (RetryExhaustedError 3 (Some "boom"%string)),
       set_attempts 3 policy, 6%Q) /\
  set_attempts 3 policy <> policy.
Proof.
  split; [reflexivity|]. split; [reflexivity|].
  intros Heq. apply (f_equal attempts) in Heq. discriminate Heq.
Qed.

(** The example of the specification: three invocations, sleeps of 1 and 2
    between them (each invocation takes one second, so the clock ends at 6),
    and [RetryExhaustedError] from the last failure; a failure that is not
    retried propagates after one invocation. *)
Lemma execute_examples :
  execute policy (logged failing) (0%Q, [])
    = (inr (RetryExhaustedError 3 (Some "boom"%string)), set_attempts 3 policy,
       (6%Q, [inr "boom"%string; inr "boom"%string; inr "boom"%string])) /\
  execute policy_strict (logged failing) (0%Q, [])
    = (inr (OperationException "boom"%string), set_attempts 1 policy_strict,
       (1%Q, [inr "boom"%string])).
Proof. split; reflexivity. Qed.

Lemma execute_stores_attempts_witness :
  execute (set_attempts 7 policy) failing 0%Q = execute policy failing 0%Q.
Proof.
  apply (proj2 (@execute_stores_attempts Q SimClock unit string
                  policy failing 0%Q)).
  cbn. lia.
Defined.

End retry_facts.

(** ** Properties of monitoring/health.py *)

Module health_facts.

Import health.

Lemma existsb_Permutation {A : Type} (f : A -> bool) (l l' : list A) :
  Permutation l l' -> existsb f l = existsb f l'.
Proof.
  induction 1 as [|x l l' _ IH|x y l|l l' l'' _ IH1 _ IH2]; cbn.
  - reflexivity.
  - rewrite IH. reflexivity.
  - destruct (f x), (f y); reflexivity.
  - congruence.
Qed.

(** The rule of the specification does not depend on the order of the
    results. *)
Lemma overall_status_spec_Permutation (rs rs' : list CheckResult) :
  Permutation rs rs' -> overall_status_spec rs = overall_status_spec rs'.
Proof.
  intros Hp. unfold overall_status_spec.
  rewrite (existsb_Permutation _ rs rs' Hp).
  rewrite (existsb_Permutation is_unhealthy rs rs' Hp). reflexivity.
Qed.

(** The rule of the specification, one more result at a time. *)
Lemma overall_status_spec_snoc (rs : list CheckResult) (r : CheckResult) :
  overall_status_spec (rs ++ [r]) =
  if is_unhealthy r then
    if result_critical r then UNHEALTHY
    else
      match overall_status_spec rs with
      | HEALTHY => DEGRADED
      | other => other
      end
  else overall_status_spec rs.
Proof.
  unfold overall_status_spec. rewrite !existsb_app. cbn.
  assert (Himp : existsb (fun r0 => result_critical r0 && is_unhealthy r0) rs
                 = true -> existsb is_unhealthy rs = true).
  { rewrite !existsb_exists. intros (x & Hin & Hx).
    exists x. apply andb_true_iff in Hx. tauto. }
  destruct (existsb (fun r0 => result_critical r0 && is_unhealthy r0) rs);
    [rewrite (Himp eq_refl)|];
    destruct (existsb is_unhealthy rs), (is_unhealthy r), (result_critical r);
    reflexivity.
Qed.

Section WithWorld.

Context {W : Type} `{PyWorld W} {E : Type}.

Variable str : E -> string.

(** The record produced by [check] carries the name and the criticality of
    the check, which [check] does not change. *)
Lemma check_keeps_identity (self : HealthCheck W E) (w : W) :
  result_name (fst (fst (check str self w))) = name self /\
  result_critical (fst (fst (check str self w))) = critical self /\
  name (snd (fst (check str self w))) = name self /\
  critical (snd (fst (check str self w))) = critical self.
Proof.
  unfold check.
  destruct (time_time w) as [start w1].
  destruct (check_fn self w1) as [[result|e] w2];
    destruct (time_time w2) as [finished w3]; repeat split.
Qed.

(** How [check] classifies the outcome of the probe: the budget [timeout]
    and the measured duration play no part in it. *)
Lemma check_classification (self : HealthCheck W E) (w : W) :
  let started := snd (time_time w) in
  let result := fst (fst (check str self w)) in
  match fst (check_fn self started) with
  | inl true =>
      result_status result = "healthy"%string /\ result_error result = None
  | inl false =>
      result_status result = "unhealthy"%string /\ result_error result = None
  | inr e =>
      result_status result = "unhealthy"%string /\
      result_error result = Some (str e)
  end.
Proof.
  unfold check. cbn zeta.
  destruct (time_time w) as [start w1]. cbn [snd].
  destruct (check_fn self w1) as [[[|]|e] w2];
    destruct (time_time w2) as [finished w3]; split; reflexivity.
Qed.

(** The loop of [check_all] keeps [overall_status] equal to the rule of the
    specification applied to the results so far, and produces one result per
    check, in the order of the dictionary. *)
Lemma check_all_loop_spec (remaining : list (string * HealthCheck W E)) :
  forall (results : list CheckResult) (overall : HealthStatus) (w : W),
    overall = overall_status_spec results ->
    exists checks' new overall' w',
      check_all_loop str remaining results overall w
        = (checks', results ++ new, overall', w') /\
      overall' = overall_status_spec (results ++ new) /\
      map result_name new = map (fun kv => name (snd kv)) remaining /\
      map result_critical new = map (fun kv => critical (snd kv)) remaining /\
      map fst checks' = map fst remaining.
Proof.
  induction remaining as [|[key check0] rest IH]; intros results overall w Hov.
  - exists [], [], overall, w. cbn. rewrite app_nil_r. auto.
  - cbn [check_all_loop].
    pose proof (check_keeps_identity check0 w) as (Hn & Hc & _ & Hc1).
    destruct (check str check0 w) as [[result check1] w1].
    cbn [fst snd] in Hn, Hc, Hc1.
    destruct (IH (results ++ [result])
                (update_overall overall result check1) w1)
      as (checks' & new & overall' & w' & Hrun & Hov' & Hnames & Hcrit & Hkeys).
    { rewrite overall_status_spec_snoc. unfold update_overall, is_unhealthy.
      rewrite Hc1, Hc, <- Hov.
      destruct (String.eqb _ _), (critical check0), overall; reflexivity. }
    rewrite Hrun.
    exists ((key, check1) :: checks'), (result :: new), overall', w'.
    rewrite <- app_assoc in Hov' |- *. cbn [app] in Hov' |- *.
    repeat split; auto; cbn; congruence.
Qed.

End WithWorld.

Lemma existsb_map_comp {A B : Type} (g : B -> bool) (h : A -> B)
    (l : list A) :
  existsb (fun x => g (h x)) l = existsb g (map h l).
Proof. induction l as [|x l IH]; cbn; [|rewrite IH]; reflexivity. Qed.

(** The rule of the specification looks at the findings only, and not at
    their order. *)
Lemma overall_status_spec_findings (rs rs' : list CheckResult) :
  Permutation (map finding rs) (map finding rs') ->
  overall_status_spec rs = overall_status_spec rs'.
Proof.
  intros Hp. unfold overall_status_spec.
  change (fun r => result_critical r && is_unhealthy r)
    with (fun r => (fun p : bool * bool => fst p && snd p) (finding r)).
  change is_unhealthy with (fun r => snd (finding r)).
  rewrite !(existsb_map_comp (fun p : bool * bool => fst p && snd p) finding).
  rewrite !(existsb_map_comp (fun p : bool * bool => snd p) finding).
  rewrite (existsb_Permutation _ _ _ Hp).
  rewrite (existsb_Permutation (fun p : bool * bool => snd p) _ _ Hp).
  reflexivity.
Qed.

(** The loop of [check_all] runs the probe of every remaining check once, in
    order, and appends the records that the outcomes stand for. *)
Lemma check_all_loop_ran {W : Type} `{PyWorld W} {E : Type}
    (str : E -> string) (remaining : list (string * HealthCheck W E)) :
  forall (results : list CheckResult) (overall : HealthStatus) (w : W),
    exists checks' new overall' w',
      check_all_loop str remaining results overall w
        = (checks', results ++ new, overall', w') /\
      probes_ran str remaining w new w'.
Proof.
  induction remaining as [|[key check0] rest IH]; intros results overall w.
  - exists [], [], overall, w. cbn. rewrite app_nil_r.
    split; [reflexivity | constructor].
  - cbn [check_all_loop]. unfold check.
    destruct (time_time w) as [start_time w1] eqn:Hstart.
    destruct (check_fn check0 w1) as [outcome w2] eqn:Hprobe.
    destruct (time_time w2) as [finished w3] eqn:Hfin.
    set (result := mkCheckResult (name check0)
                     (HealthStatus_value (outcome_status outcome))
                     (critical check0) (finished - start_time)%Q start_time
                     (outcome_error str outcome)).
    assert (Hcheck : exists check1,
      match outcome with
      | inl r =>
          (mkCheckResult (name check0)
             (HealthStatus_value (if r then HEALTHY else UNHEALTHY))
             (critical check0) (finished - start_time)%Q start_time None,
           mkHealthCheck (name check0) (check_fn check0) (critical check0)
             (timeout check0) (Some start_time)
             (Some (if r then HEALTHY else UNHEALTHY)) None, w3)
      | inr e =>
          (mkCheckResult (name check0) (HealthStatus_value UNHEALTHY)
             (critical check0) (finished - start_time)%Q start_time
             (Some (str e)),
           mkHealthCheck (name check0) (check_fn check0) (critical check0)
             (timeout check0) (Some start_time) (Some UNHEALTHY)
             (Some (str e)), w3)
      end = (result, check1, w3)).
    { destruct outcome as [[|]|e]; eexists; reflexivity. }
    destruct Hcheck as [check1 Hcheck]. rewrite Hcheck.
    destruct (IH (results ++ [result])
                (update_overall overall result check1) w3)
      as (checks' & new & overall' & w' & Hrun & Hran).
    rewrite Hrun.
    exists ((key, check1) :: checks'), (result :: new), overall', w'.
    rewrite <- app_assoc. cbn [app]. split; [reflexivity|].
    exact (probes_ran_next str key check0 rest w w1 w2 w3 w' start_time
             finished outcome new Hstart Hprobe Hfin Hran).
Qed.

(** C6. [check_all] runs the probe of every registered check exactly once,
    in the order of the dictionary, and reports for each the record its
    outcome stands for (UNHEALTHY when the probe raised or returned a falsy
    result, HEALTHY otherwise), with the name and the criticality of the
    check; its timestamp is the clock read that follows.  The overall status
    is the rule of the specification applied to these results: UNHEALTHY if a
    critical check is UNHEALTHY, else DEGRADED if any check is UNHEALTHY, else
    HEALTHY.  Two runs whose results agree, up to order, on which checks are
    critical and which are UNHEALTHY report the same overall status, whatever
    the timestamps and the durations. *)
Theorem check_all_overall_status {W : Type} `{PyWorld W} {E : Type}
    (str : E -> string) (self : HealthMonitor W E) (w : W) :
  let report := fst (fst (check_all str self w)) in
  (exists w1 : W,
     probes_ran str (checks self) w (report_checks report) w1 /\
     report_timestamp report = fst (time_time w1) /\
     snd (check_all str self w) = snd (time_time w1)) /\
  report_status report
    = HealthStatus_value (overall_status_spec (report_checks report)) /\
  map result_name (report_checks report)
    = map (fun kv => name (snd kv)) (checks self) /\
  map result_critical (report_checks report)
    = map (fun kv => critical (snd kv)) (checks self) /\
  forall (self2 : HealthMonitor W E) (w2 : W),
    Permutation
      (map finding (report_checks (fst (fst (check_all str self2 w2)))))
      (map finding (report_checks report)) ->
    report_status (fst (fst (check_all str self2 w2))) = report_status report.
Proof.
  assert (Hstatus : forall (m : HealthMonitor W E) (w0 : W),
    report_status (fst (fst (check_all str m w0)))
      = HealthStatus_value
          (overall_status_spec
             (report_checks (fst (fst (check_all str m w0))))) /\
    map result_name (report_checks (fst (fst (check_all str m w0))))
      = map (fun kv => name (snd kv)) (checks m) /\
    map result_critical (report_checks (fst (fst (check_all str m w0))))
      = map (fun kv => critical (snd kv)) (checks m)).
  { intros m w0. unfold check_all.
    destruct (check_all_loop_spec str (checks m) [] HEALTHY w0 eq_refl)
      as (checks' & new & overall' & w' & Hrun & Hov & Hnames & Hcrit & _).
    rewrite Hrun. cbn [app] in Hov |- *.
    destruct (time_time w') as [timestamp w2]. cbn.
    rewrite Hov. auto. }
  cbn zeta. destruct (Hstatus self w) as (Hs & Hn & Hc).
  split; [|repeat split; auto].
  - unfold check_all.
    destruct (check_all_loop_ran str (checks self) [] HEALTHY w)
      as (checks' & new & overall' & w' & Hrun & Hran).
    rewrite Hrun. cbn [app] in *.
    exists w'. destruct (time_time w') as [timestamp w2]. cbn.
    repeat split. exact Hran.
  - intros self2 w2 Hperm.
    destruct (Hstatus self2 w2) as (Hs2 & _).
    rewrite Hs2, Hs.
    rewrite (overall_status_spec_findings _ _ Hperm). reflexivity.
Qed.

(** *** Runs on the simulated clock *)

Import simulation.

(** The examples of the specification: a critical failure dominates, a
    non-critical failure degrades, no failure is healthy. *)
Lemma check_all_examples :
  report_status (fst (fst (check_all (fun e => e) monitor 0%Q)))
    = "unhealthy"%string /\
  report_status (fst (fst (check_all (fun e => e) monitor_degraded 0%Q)))
    = "degraded"%string /\
  report_status (fst (fst (check_all (fun e => e) monitor_healthy 0%Q)))
    = "healthy"%string.
Proof. repeat split. Qed.

(** [monitor_timed] and [monitor_timed_swapped] checked at clock value 0: the
    probes take time, so the records of the two runs differ in timestamps,
    and the overall status is the same. *)
Lemma check_all_overall_status_witness :
  report_status (fst (fst (check_all (fun e => e) monitor_timed_swapped 0%Q)))
  = report_status (fst (fst (check_all (fun e => e) monitor_timed 0%Q))).
Proof.
  apply (proj2 (proj2 (proj2 (proj2
           (@check_all_overall_status Q SimClock string (fun e => e)
              monitor_timed 0%Q))))).
  vm_compute. apply perm_swap.
Defined.

(** C7 fails on the code: a probe that returns [True] ten seconds after it
    was started, under a budget of five seconds, is reported "healthy". *)
Theorem slow_probe_reported_healthy :
  let result := fst (fst (check (fun e => e) slow_check 0%Q)) in
  result_status result = "healthy"%string /\
  (result_duration result == 10)%Q /\
  (timeout slow_check < result_duration result)%Q.
Proof. cbn. repeat split. Qed.

End health_facts.

(** ** Further properties of patterns/circuit_breaker.py *)

Module circuit_breaker_more.

Import circuit_breaker circuit_breaker_facts.

Section WithWorld.

Context {W : Type} `{PyWorld W} {V E : Type}.

Lemma same_settings_refl (b : CircuitBreaker) : same_settings b b.
Proof. repeat split. Qed.

Lemma same_settings_trans (b1 b2 b3 : CircuitBreaker) :
  same_settings b1 b2 -> same_settings b2 b3 -> same_settings b1 b3.
Proof.
  intros (H1 & H2 & H3 & H4) (H5 & H6 & H7 & H8).
  repeat split; congruence.
Qed.

Lemma state_keeps_settings (b : CircuitBreaker) (w : W) :
  same_settings b (snd (fst (state b w))).
Proof.
  unfold state. destruct (_state b); try apply same_settings_refl.
  destruct (_should_attempt_reset b w) as [[|] w1]; repeat split.
Qed.

Lemma _on_success_keeps_settings (b : CircuitBreaker) :
  same_settings b (_on_success b).
Proof.
  unfold _on_success. destruct (_state b); try (repeat split; fail).
  cbn. destruct (success_threshold b <=? _success_count b + 1); repeat split.
Qed.

Lemma _on_failure_keeps_settings (b : CircuitBreaker) (w : W) :
  same_settings b (fst (_on_failure b w)).
Proof.
  destruct (time_time w) as [now w1] eqn:Hnow.
  rewrite (_on_failure_eq b w w1 now Hnow). unfold failure_recorded. cbn.
  destruct (_state b);
    try destruct (failure_threshold b <=? _failure_count b + 1);
    repeat split.
Qed.

(** [call] is transparent.  It never changes the settings of the breaker.
    When the state read gives OPEN, the call is rejected: the breaker was OPEN
    and stays as it was, the operation is not run, and the world is the one
    left by the state read.  Otherwise the operation runs exactly once, in the
    world left by the state read: if it returns, [call] returns the same
    value, the success is recorded and the world is the one the operation
    left; if it raises, [call] raises the same exception, the failure is
    recorded and the world is the one the operation left, advanced by the
    clock read of [_on_failure]. *)
Theorem call_is_transparent (b : CircuitBreaker) (func : operation W V E)
    (w : W) :
  let b1 := snd (fst (state b w)) in
  let w1 := snd (state b w) in
  same_settings b (snd (fst (call b func w))) /\
  ((fst (fst (state b w)) = OPEN /\
    _state b = OPEN /\
    call b func w = (rejection b, b, w1))
   \/
   (fst (fst (state b w)) <> OPEN /\
    exists (r : V + E) (w2 : W),
      func w1 = (r, w2) /\
      match r with
      | inl v => call b func w = (inl v, _on_success b1, w2)
      | inr e =>
          call b func w
          = (inr (OperationException e), fst (_on_failure b1 w2),
             snd (time_time w2))
      end)).
Proof.
  cbn zeta. unfold call.
  pose proof (state_keeps_settings b w) as Hset.
  destruct (state b w) as [[s b1] w1] eqn:Hst. cbn [fst snd] in *.
  assert (Hthrough :
    s <> OPEN ->
    same_settings b (snd (fst (let_through b1 func w1))) /\
    exists (r : V + E) (w2 : W),
      func w1 = (r, w2) /\
      match r with
      | inl v => let_through b1 func w1 = (inl v, _on_success b1, w2)
      | inr e =>
          let_through b1 func w1
          = (inr (OperationException e), fst (_on_failure b1 w2),
             snd (time_time w2))
      end).
  { intros _. unfold let_through.
    destruct (func w1) as [[v|e] w2]; cbn [fst snd].
    - split.
      + apply (same_settings_trans _ b1 _); [exact Hset|].
        apply _on_success_keeps_settings.
      + exists (inl v), w2. split; reflexivity.
    - pose proof (_on_failure_keeps_settings b1 w2) as Hf.
      destruct (time_time w2) as [now w3] eqn:Hnow.
      rewrite (_on_failure_eq b1 w2 w3 now Hnow) in Hf |- *.
      cbn [fst snd] in *. split.
      + apply (same_settings_trans _ b1 _); assumption.
      + exists (inr e), w2. split; [reflexivity|].
        rewrite (_on_failure_eq b1 w2 w3 now Hnow), Hnow. reflexivity. }
  unfold let_through in Hthrough.
  destruct s.
  - destruct Hthrough as [H1 H2]; [discriminate|]. split; [exact H1|].
    right. split; [discriminate | exact H2].
  - split; [exact Hset|]. left.
    unfold state in Hst. destruct (_state b) eqn:Hs.
    + inversion Hst.
    + destruct (_should_attempt_reset b w) as [[|] w0];
        inversion Hst; subst. repeat split.
    + inversion Hst.
  - destruct Hthrough as [H1 H2]; [discriminate|]. split; [exact H1|].
    right. split; [discriminate | exact H2].
Qed.

(** Failures only trip the breaker when they are consecutive: from CLOSED
    with no failure counted, [k] failures, one success and [j] more failures,
    each run shorter than [failure_threshold], leave the breaker CLOSED with
    [j] failures counted, however large [k + j] is. *)
Theorem success_restarts_failure_count (b : CircuitBreaker)
    (failing succeeding : operation W V E) (w : W) (k j : nat) :
  _state b = CLOSED -> _failure_count b = 0 ->
  always_fails failing -> always_succeeds succeeding ->
  Z.of_nat k < failure_threshold b -> Z.of_nat j < failure_threshold b ->
  exists rs1 b1 w1 r b2 w2 rs2 b3 w3,
    call_n k b failing w = (rs1, b1, w1) /\
    call b1 succeeding w1 = (r, b2, w2) /\
    call_n j b2 failing w2 = (rs2, b3, w3) /\
    Forall operation_raised rs1 /\ operation_returned r /\
    Forall operation_raised rs2 /\
    _state b3 = CLOSED /\ _failure_count b3 = Z.of_nat j.
Proof.
  intros Hs Hfc Hfail Hok Hk Hj.
  destruct (closed_failures_below_threshold failing Hfail k b w Hs)
    as (rs1 & b1 & w1 & Hrun1 & Hall1 & Hs1 & _ & Hft1 & _); [lia|].
  destruct (Hok w1) as (v & w2 & Hf).
  assert (Hopen : _state b1 <> OPEN) by congruence.
  pose proof (call_success b1 succeeding w1 w2 v Hopen Hf) as Hcall.
  assert (Hb2 : _on_success b1 = set_failure_count 0 b1).
  { unfold _on_success. rewrite Hs1. reflexivity. }
  rewrite Hb2 in Hcall.
  destruct (closed_failures_below_threshold failing Hfail j
              (set_failure_count 0 b1) w2)
    as (rs2 & b3 & w3 & Hrun2 & Hall2 & Hs3 & Hfc3 & _); [exact Hs1 | cbn; lia|].
  exists rs1, b1, w1, (inl v), (set_failure_count 0 b1), w2, rs2, b3, w3.
  split; [exact Hrun1|]. split; [exact Hcall|]. split; [exact Hrun2|].
  split; [exact Hall1|]. split; [exists v; reflexivity|].
  split; [exact Hall2|]. split; [exact Hs3|].
  rewrite Hfc3. cbn. lia.
Qed.

(** From HALF_OPEN with no success counted, [success_threshold] successes
    close the circuit. *)
Lemma half_open_successes_close (func : operation W V E) :
  always_succeeds func ->
  forall (b : CircuitBreaker) (w : W),
    _state b = HALF_OPEN -> _success_count b = 0 ->
    0 < success_threshold b ->
    exists rs b' w',
      call_n (Z.to_nat (success_threshold b)) b func w = (rs, b', w') /\
      Forall operation_returned rs /\
      _state b' = CLOSED /\ _failure_count b' = 0 /\ _success_count b' = 0.
Proof.
  intros Hok b w Hs Hsc Hpos.
  destruct (Z.to_nat (success_threshold b)) as [|n] eqn:Hn; [lia|].
  destruct (half_open_successes_below_threshold func Hok n b w Hs)
    as (rs & b1 & w1 & Hrun & Hall & Hs1 & Hsc1 & Hst1); [lia|].
  destruct (Hok w1) as (v & w2 & Hf).
  assert (Hopen : _state b1 <> OPEN) by congruence.
  pose proof (call_success b1 func w1 w2 v Hopen Hf) as Hcall.
  exists (rs ++ [inl v]), (_on_success b1), w2.
  rewrite call_n_snoc, Hrun, Hcall.
  assert (Hclose : _on_success b1 =
                   _reset (set_success_count (_success_count b1 + 1) b1)).
  { unfold _on_success. rewrite Hs1. cbn.
    destruct (success_threshold b1 <=? _success_count b1 + 1) eqn:Hc;
      [reflexivity | apply Z.leb_gt in Hc; lia]. }
  rewrite Hclose. repeat split.
  apply Forall_app. split; [exact Hall|].
  constructor; [exists v; reflexivity | constructor].
Qed.

(** Recovery.  An OPEN breaker whose timeout has elapsed at the first clock
    read closes after [success_threshold] successful calls in a row, with both
    counters at 0; the clock is not consulted again on the way, and whatever
    the success count held while OPEN does not matter. *)
Theorem recovery_after_timeout (b : CircuitBreaker) (func : operation W V E)
    (w w1 : W) (t now : Q) :
  _state b = OPEN -> _last_failure_time b = Some t ->
  time_time w = (now, w1) -> (timeout b <= now - t)%Q ->
  0 < success_threshold b -> always_succeeds func ->
  exists rs b' w',
    call_n (Z.to_nat (success_threshold b)) b func w = (rs, b', w') /\
    Forall operation_returned rs /\
    _state b' = CLOSED /\ _failure_count b' = 0 /\ _success_count b' = 0.
Proof.
  intros Hs Ht Hnow Hle Hpos Hok.
  set (b_half := set_success_count 0 (set_state HALF_OPEN b)).
  assert (Hfirst : call b func w = call b_half func w1).
  { rewrite (call_open_elapsed b func w w1 t now Hs Ht Hnow Hle).
    symmetry. apply call_not_open. discriminate. }
  destruct (half_open_successes_close func Hok b_half w1)
    as (rs & b' & w' & Hrun & Hrest); try reflexivity; [exact Hpos|].
  exists rs, b', w'. split; [|exact Hrest].
  change (success_threshold b_half) with (success_threshold b) in Hrun.
  destruct (Z.to_nat (success_threshold b)) as [|n] eqn:Hn; [lia|].
  rewrite call_n_S in Hrun |- *. rewrite Hfirst. exact Hrun.
Qed.

Local Ltac in_range :=
  unfold counters_in_range in *; cbn in *;
  repeat match goal with
         | Hx : _ /\ _ |- _ => destruct Hx
         | Hx : _state _ = _ |- _ => rewrite Hx in *
         end;
  repeat split; intros; try discriminate; try congruence; try lia; eauto.

Lemma counters_in_range_state (b : CircuitBreaker) (w : W) :
  counters_in_range b -> counters_in_range (snd (fst (state b w))).
Proof.
  intros Hin. unfold state. destruct (_state b) eqn:Hs; try exact Hin.
  destruct (_should_attempt_reset b w) as [[|] w1]; [|exact Hin].
  in_range.
Qed.

Lemma counters_in_range_on_success (b : CircuitBreaker) :
  counters_in_range b -> counters_in_range (_on_success b).
Proof.
  intros Hin. unfold _on_success. destruct (_state b) eqn:Hs.
  - in_range.
  - exact Hin.
  - cbn. destruct (success_threshold b <=? _success_count b + 1) eqn:Hc;
      [apply Z.leb_le in Hc | apply Z.leb_gt in Hc]; in_range.
Qed.

Lemma counters_in_range_on_failure (b : CircuitBreaker) (w : W) :
  counters_in_range b -> counters_in_range (fst (_on_failure b w)).
Proof.
  intros Hin. destruct (time_time w) as [now w1] eqn:Hnow.
  rewrite (_on_failure_eq b w w1 now Hnow). unfold failure_recorded.
  cbn [fst].
  destruct (_state b) eqn:Hs;
    try (destruct (failure_threshold b <=? _failure_count b + 1) eqn:Hc;
         [apply Z.leb_le in Hc | apply Z.leb_gt in Hc]);
    in_range.
Qed.

(** Every breaker that [__init__], the [state] property, [call] and [reset]
    can produce keeps its counters in range: they are never negative, the
    success count is 0 outside HALF_OPEN, an OPEN breaker has a failure time
    recorded, and with positive thresholds a CLOSED breaker has counted fewer
    than [failure_threshold] failures and a HALF_OPEN breaker fewer than
    [success_threshold] successes. *)
Theorem reachable_counters_in_range (b : CircuitBreaker) :
  @reachable W _ V E b -> counters_in_range b.
Proof.
  induction 1 as [ft tmo st nm | b b' w w' s _ IH Hst
                 | b b' func w w' r _ IH Hcall | b _ IH].
  - in_range.
  - pose proof (counters_in_range_state b w IH) as Hb'.
    rewrite Hst in Hb'. exact Hb'.
  - unfold call in Hcall.
    pose proof (counters_in_range_state b w IH) as Hb1.
    destruct (state b w) as [[s b1] w1]. cbn [fst snd] in Hb1.
    assert (Hthrough :
              let_through b1 func w1 = (r, b', w') -> counters_in_range b').
    { unfold let_through. destruct (func w1) as [[v|e] w2].
      - intros Heq. inversion Heq; subst.
        exact (counters_in_range_on_success b1 Hb1).
      - pose proof (counters_in_range_on_failure b1 w2 Hb1) as Hf.
        destruct (_on_failure b1 w2) as [b2 w3]. intros Heq.
        inversion Heq; subst. exact Hf. }
    unfold let_through in Hthrough.
    destruct s; [exact (Hthrough Hcall) | | exact (Hthrough Hcall)].
    inversion Hcall; subst. exact Hb1.
  - unfold reset. in_range.
Qed.

(** A manual reset reopens traffic at once: whatever the breaker was, even
    OPEN with its timeout still running, the call that follows [reset] runs
    the operation in the world as it is, without a clock read before it, and
    hands back what the operation returned or raised; the recorded failure
    time and the settings survive the reset. *)
Theorem reset_then_call_runs_operation (b : CircuitBreaker)
    (func : operation W V E) (w : W) :
  fst (fst (call (reset b) func w)) =
    match fst (func w) with
    | inl v => inl v
    | inr e => inr (OperationException e)
    end /\
  (forall v w1, func w = (inl v, w1) ->
     call (reset b) func w = (inl v, reset b, w1)) /\
  _last_failure_time (reset b) = _last_failure_time b /\
  same_settings b (reset b).
Proof.
  assert (Hopen : _state (reset b) <> OPEN) by discriminate.
  split; [|split; [|split]].
  - rewrite (call_not_open (reset b) func w Hopen). unfold let_through.
    destruct (func w) as [[v|e] w1]; [reflexivity|].
    destruct (_on_failure (reset b) w1). reflexivity.
  - intros v w1 Hf. rewrite (call_success (reset b) func w w1 v Hopen Hf).
    reflexivity.
  - reflexivity.
  - repeat split.
Qed.

(** Thresholds below 1 behave as 1.  A CLOSED breaker whose
    [failure_threshold] is at most 1 (0 and negative values included) still
    runs the operation, and opens on the first failure; a HALF_OPEN breaker
    whose [success_threshold] is at most 1 closes on the first success. *)
Theorem thresholds_below_one (b : CircuitBreaker) (func : operation W V E)
    (w w1 : W) :
  (forall e, _state b = CLOSED -> failure_threshold b <= 1 ->
     0 <= _failure_count b -> func w = (inr e, w1) ->
     fst (fst (call b func w)) = inr (OperationException e) /\
     _state (snd (fst (call b func w))) = OPEN) /\
  (forall v, _state b = HALF_OPEN -> success_threshold b <= 1 ->
     0 <= _success_count b -> func w = (inl v, w1) ->
     fst (fst (call b func w)) = inl v /\
     _state (snd (fst (call b func w))) = CLOSED).
Proof.
  split.
  - intros e Hs Hft Hfc Hf.
    destruct (time_time w1) as [now w2] eqn:Hnow.
    assert (Hopen : _state b <> OPEN) by congruence.
    rewrite (call_failure b func w w1 w2 e now Hopen Hf Hnow).
    rewrite (failure_recorded_trips b now Hs) by lia.
    split; reflexivity.
  - intros v Hs Hst Hsc Hf.
    assert (Hopen : _state b <> OPEN) by congruence.
    rewrite (call_success b func w w1 v Hopen Hf).
    split; [reflexivity|]. cbn [fst snd]. unfold _on_success. rewrite Hs. cbn.
    destruct (success_threshold b <=? _success_count b + 1) eqn:Hc;
      [reflexivity | apply Z.leb_gt in Hc; lia].
Qed.

End WithWorld.

(** *** Runs on the simulated clock *)

Import simulation.

(** [breaker] after one failed call at clock value 0. *)
Lemma breaker_after_failure_reachable :
  @reachable Q SimClock unit string
    (mkCircuitBreaker 2 60 2 "default" CLOSED 1 0 (Some 1%Q)).
Proof.
  apply (reachable_call breaker _ failing 0%Q 1%Q
           (inr (OperationException "boom"%string)));
    [apply reachable_init | reflexivity].
Defined.

Lemma reachable_counters_in_range_witness :
  counters_in_range (mkCircuitBreaker 2 60 2 "default" CLOSED 1 0 (Some 1%Q)).
Proof.
  exact (@reachable_counters_in_range Q SimClock unit string _
           breaker_after_failure_reachable).
Defined.

(** [breaker]: one failure, one success, one failure, from clock value 0. *)
Lemma success_restarts_failure_count_witness :
  exists rs1 b1 w1 r b2 w2 rs2 b3 w3,
    call_n 1 breaker failing 0%Q = (rs1, b1, w1) /\
    call b1 succeeding w1 = (r, b2, w2) /\
    call_n 1 b2 failing w2 = (rs2, b3, w3) /\
    Forall operation_raised rs1 /\ operation_returned r /\
    Forall operation_raised rs2 /\
    _state b3 = CLOSED /\ _failure_count b3 = Z.of_nat 1.
Proof.
  apply (@success_restarts_failure_count Q SimClock unit string breaker
           failing succeeding 0%Q 1%nat 1%nat);
    [reflexivity | reflexivity | exact failing_always_fails
    | exact succeeding_always_succeeds | reflexivity | reflexivity].
Defined.

(** [open_breaker] called with [succeeding] from clock value 100. *)
Lemma recovery_after_timeout_witness :
  exists rs b' w',
    call_n (Z.to_nat (success_threshold open_breaker)) open_breaker
      succeeding 100%Q = (rs, b', w') /\
    Forall operation_returned rs /\
    _state b' = CLOSED /\ _failure_count b' = 0 /\ _success_count b' = 0.
Proof.
  apply (@recovery_after_timeout Q SimClock unit string open_breaker
           succeeding 100%Q 100%Q 10%Q 100%Q);
    [reflexivity | reflexivity | reflexivity | unfold Qle; cbn; lia
    | reflexivity | exact succeeding_always_succeeds].
Defined.

(** A breaker with [failure_threshold=0] and a failing call; a HALF_OPEN
    breaker with [success_threshold=0] and a successful call. *)
Lemma thresholds_below_one_witness :
  _state (snd (fst (call (__init__ 0 60 2 None) failing 0%Q))) = OPEN /\
  _state (snd (fst (call
            (mkCircuitBreaker 2 60 0 "default" HALF_OPEN 2 0 (Some 10%Q))
            succeeding 100%Q))) = CLOSED.
Proof.
  split.
  - apply (proj1 (@thresholds_below_one Q SimClock unit string
                    (__init__ 0 60 2 None) failing 0%Q 1%Q) "boom"%string);
      [reflexivity | cbn; lia | cbn; lia | reflexivity].
  - apply (proj2 (@thresholds_below_one Q SimClock unit string
                    (mkCircuitBreaker 2 60 0 "default" HALF_OPEN 2 0
                       (Some 10%Q))
                    succeeding 100%Q 101%Q) tt);
      [reflexivity | cbn; lia | cbn; lia | reflexivity].
Defined.

End circuit_breaker_more.

(** ** Further properties of patterns/retry.py *)

Module retry_more.

Import retry retry_facts.


Section WithWorld.

Context {W : Type} `{PyWorld W} {V E : Type}.

Variable func : operation W V E.

(** With [max_attempts] below 1 the loop body never runs: [execute] and the
    decorated function raise [RetryExhaustedError] with no cause, without
    invoking the operation, sleeping or touching the policy object. *)
Theorem execute_without_attempts (self : Retry E) (w : W)
    (on_retry : option (Z -> E -> W -> (unit + E) * W)) :
  max_attempts self <= 0 ->
  execute self func w
    = (inr (RetryExhaustedError (max_attempts self) None), self, w) /\
  wrapper (max_attempts self) (initial_delay self) (backoff_factor self)
    (exceptions self) on_retry func w
    = (inr (RetryExhaustedError (max_attempts self) None), w).
Proof.
  intros Hmax. unfold execute, wrapper.
  replace (Z.to_nat (max_attempts self)) with O by lia.
  split; reflexivity.
Qed.

(** Whatever the operation does, [execute] invokes it at most [max_attempts]
    times; it returns a value exactly when the last invocation returned it,
    and every invocation before the last failed with an exception that the
    policy retries. *)
Theorem execute_invocations_bounded (self : Retry E) (w : W) :
  exists res self' w' log,
    execute self (logged func) (w, []) = (res, self', (w', log)) /\
    (List.length log <= Z.to_nat (max_attempts self))%nat /\
    (forall v, res = inl v <-> exists older, log = inl v :: older) /\
    Forall (caught (exceptions self)) (tl log).
Proof.
  unfold execute.
  destruct (execute_loop_trace func (Z.to_nat (max_attempts self)) 0
              (initial_delay self) None self w [])
    as (res & self' & w' & new & Hrun & _ & Hlen & Hv & _).
  rewrite app_nil_r in Hrun.
  exists res, self', w', new. split; [exact Hrun|]. split; [exact Hlen|].
  destruct new as [|r older]; cbn [verdict tl] in *.
  - subst res. split; [|constructor].
    intros v. split; [discriminate | intros (older & Hx); discriminate].
  - destruct Hv as [Hall Hhead]. split; [|exact Hall].
    intros v. split.
    + intros Hres. exists older. subst res. destruct r as [v0|e].
      * congruence.
      * destruct (exceptions self e);
          [destruct Hhead as [Hx|(d & Hx)]|]; discriminate.
    + intros (older' & Hx). inversion Hx; subst. exact Hhead.
Qed.



End WithWorld.


Section Observer.

Context {W : Type} `{PyWorld W} {V E : Type}.

Variable func : operation W V E.

(** One iteration of the loop of the decorated function with the noting
    observer, when the invocation fails with a retried exception. *)
Lemma wrapper_loop_step_noting (m : Z) (bf : Q) (exc : E -> bool) (k : nat)
    (attempt : Z) (delay : Q) (last : option E) (w w1 : W)
    (notes : list (Z * E)) (e : E) :
  func w = (inr e, w1) -> exc e = true ->
  wrapper_loop m bf exc (Some record_retry) (unlogged func) (S k) attempt
    delay last (w, notes) =
  if attempt <? m - 1 then
    if Qle_bool 0 delay then
      wrapper_loop m bf exc (Some record_retry) (unlogged func) k
        (attempt + 1) (delay * bf) (Some e)
        (time_sleep delay w1, (attempt + 1, e) :: notes)
    else (inr (SleepValueError delay), (w1, (attempt + 1, e) :: notes))
  else (inr (RetryExhaustedError m (Some e)), (w1, notes)).
Proof.
  intros Hf Hexc. cbn [wrapper_loop]. unfold unlogged at 1. cbn [fst snd].
  rewrite Hf, Hexc. reflexivity.
Qed.

Lemma wrapper_loop_notes (exc : E -> bool) (m : Z) (bf : Q) :
  always_fails_retryably exc func -> (0 <= bf)%Q ->
  forall (k : nat) (attempt : Z) (delay : Q) (last : option E) (w : W)
         (notes : list (Z * E)),
    attempt + Z.of_nat (S k) = m -> (0 <= delay)%Q ->
    exists e w' new,
      wrapper_loop m bf exc (Some record_retry) (unlogged func) (S k) attempt
        delay last (w, notes)
        = (inr (RetryExhaustedError m (Some e)), (w', new ++ notes)) /\
      map fst (rev new) = map (fun i => attempt + Z.of_nat i) (seq 1 k) /\
      Forall (fun note => exc (snd note) = true) new.
Proof.
  intros Hfail Hbf k.
  induction k as [|k IH]; intros attempt delay last w notes Hatt Hdelay;
    destruct (Hfail w) as (e & w1 & Hf & Hcaught);
    rewrite (wrapper_loop_step_noting m bf exc _ attempt delay last w w1 notes
               e Hf Hcaught).
  - destruct (attempt <? m - 1) eqn:Hlt; [apply Z.ltb_lt in Hlt; lia|].
    exists e, w1, []. repeat split. constructor.
  - destruct (attempt <? m - 1) eqn:Hlt; [|apply Z.ltb_ge in Hlt; lia].
    apply Qle_bool_iff in Hdelay. rewrite Hdelay.
    apply Qle_bool_iff in Hdelay.
    destruct (IH (attempt + 1) (delay * bf)%Q (Some e) (time_sleep delay w1)
                ((attempt + 1, e) :: notes))
      as (e' & w' & new & Hrun & Hnums & Hall).
    + lia.
    + apply Qmult_le_0_compat; assumption.
    + exists e', w', (new ++ [(attempt + 1, e)]).
      rewrite <- app_assoc. cbn [app]. split; [exact Hrun|]. split.
      * rewrite rev_app_distr. cbn [rev app map fst].
        rewrite Hnums.
        change (seq 1 (S k)) with (1%nat :: seq 2 k). cbn [map].
        rewrite <- (seq_shift k 1), map_map.
        f_equal; try (apply map_ext; intros i); lia.
      * apply Forall_app. split; [exact Hall|].
        constructor; [exact Hcaught | constructor].
Qed.

End Observer.

(** The observer of the [retry] decorator.  When every invocation fails with
    a retried exception and no delay is negative, [on_retry] is called
    [max_attempts - 1] times, with the attempt numbers 1, 2, ... in this
    order and each time with a retried exception: once after every failed
    attempt that is followed by another one, and not after the last. *)
Theorem wrapper_notifies_observer {W : Type} `{PyWorld W} {V E : Type}
    (max_attempts : Z) (initial_delay backoff_factor : Q)
    (exceptions : E -> bool) (func : operation W V E) (w : W) :
  1 <= max_attempts ->
  (0 <= initial_delay)%Q -> (0 <= backoff_factor)%Q ->
  always_fails_retryably exceptions func ->
  exists e w' notes,
    wrapper max_attempts initial_delay backoff_factor exceptions
      (Some record_retry) (unlogged func) (w, [])
      = (inr (RetryExhaustedError max_attempts (Some e)), (w', notes)) /\
    map fst (rev notes)
      = map Z.of_nat (seq 1 (Z.to_nat max_attempts - 1)) /\
    Forall (fun note => exceptions (snd note) = true) notes.
Proof.
  intros Hmax Hdelay Hbf Hfail. unfold wrapper.
  destruct (Z.to_nat max_attempts) as [|k] eqn:Hk; [lia|].
  destruct (wrapper_loop_notes func exceptions max_attempts backoff_factor
              Hfail Hbf k 0 initial_delay None w [])
    as (e & w' & new & Hrun & Hnums & Hall); [lia | exact Hdelay |].
  rewrite app_nil_r in Hrun.
  exists e, w', new. replace (S k - 1)%nat with k by lia.
  split; [exact Hrun|]. split; [|exact Hall].
  rewrite Hnums. apply map_ext. intros i. lia.
Qed.

(** *** Runs on the simulated clock *)

Import simulation.

Lemma execute_without_attempts_witness :
  execute (__init__ 0 1 2 (fun _ : string => true)) failing 0%Q
  = (inr (RetryExhaustedError 0 None),
     __init__ 0 1 2 (fun _ : string => true), 0%Q).
Proof.
  apply (proj1 (@execute_without_attempts Q SimClock unit string failing
                  (__init__ 0 1 2 (fun _ => true)) 0%Q None
                  ltac:(cbn; lia))).
Defined.


(** The decorated [failing] with three attempts: the observer is called
    with 1 and with 2. *)
Lemma wrapper_notifies_observer_witness :
  exists e w' notes,
    wrapper 3 1 2 (fun _ : string => true) (Some record_retry)
      (unlogged failing) (0%Q, [])
      = (inr (RetryExhaustedError 3 (Some e)), (w', notes)) /\
    map fst (rev notes) = map Z.of_nat (seq 1 (Z.to_nat 3 - 1)) /\
    Forall (fun note => (fun _ : string => true) (snd note) = true) notes.
Proof.
  apply (@wrapper_notifies_observer Q SimClock unit string 3 1 2
           (fun _ => true) failing 0%Q);
    [lia | unfold Qle; cbn; lia | unfold Qle; cbn; lia
    | exact failing_always_fails_retryably].
Defined.

End retry_more.

(** ** Further properties of monitoring/health.py *)

Module health_more.

Import health health_facts.

(** *** The dictionary of checks *)

Lemma dict_get_set_same {A : Type} (key : string) (value : A)
    (d : list (string * A)) :
  dict_get key (dict_set key value d) = Some value.
Proof.
  induction d as [|[k v] rest IH]; cbn.
  - rewrite String.eqb_refl. reflexivity.
  - destruct (String.eqb k key) eqn:Hk; cbn; rewrite Hk; auto.
Qed.

Lemma dict_get_set_other {A : Type} (key key' : string) (value : A)
    (d : list (string * A)) :
  key' <> key -> dict_get key' (dict_set key value d) = dict_get key' d.
Proof.
  intros Hne. induction d as [|[k v] rest IH]; cbn.
  - destruct (String.eqb key key') eqn:Hk; [|reflexivity].
    apply String.eqb_eq in Hk. congruence.
  - destruct (String.eqb k key) eqn:Hk; cbn.
    + apply String.eqb_eq in Hk. subst k.
      destruct (String.eqb key key') eqn:Hk'; [|reflexivity].
      apply String.eqb_eq in Hk'. congruence.
    + rewrite IH. reflexivity.
Qed.

Lemma dict_get_del_same {A : Type} (key : string) (d : list (string * A)) :
  dict_get key (dict_del key d) = None.
Proof.
  unfold dict_del. induction d as [|[k v] rest IH]; cbn; [reflexivity|].
  destruct (String.eqb k key) eqn:Hk; cbn; [exact IH|].
  rewrite Hk. exact IH.
Qed.

Lemma dict_get_del_other {A : Type} (key key' : string)
    (d : list (string * A)) :
  key' <> key -> dict_get key' (dict_del key d) = dict_get key' d.
Proof.
  intros Hne. unfold dict_del.
  induction d as [|[k v] rest IH]; cbn; [reflexivity|].
  destruct (String.eqb k key) eqn:Hk; cbn.
  - apply String.eqb_eq in Hk. subst k.
    destruct (String.eqb key key') eqn:Hk'; [|exact IH].
    apply String.eqb_eq in Hk'. congruence.
  - rewrite IH. reflexivity.
Qed.

Lemma dict_get_None {A : Type} (key : string) (d : list (string * A)) :
  dict_get key d = None <-> ~ In key (map fst d).
Proof.
  induction d as [|[k v] rest IH]; cbn; [tauto|].
  destruct (String.eqb k key) eqn:Hk.
  - apply String.eqb_eq in Hk. split; [discriminate | tauto].
  - apply String.eqb_neq in Hk. tauto.
Qed.

Lemma dict_del_absent {A : Type} (key : string) (d : list (string * A)) :
  ~ In key (map fst d) -> dict_del key d = d.
Proof.
  unfold dict_del. induction d as [|[k v] rest IH]; cbn; [reflexivity|].
  intros Hnot. destruct (String.eqb k key) eqn:Hk.
  - apply String.eqb_eq in Hk. tauto.
  - cbn. rewrite IH by tauto. reflexivity.
Qed.

Lemma dict_set_keys {A : Type} (key : string) (value : A)
    (d : list (string * A)) :
  (In key (map fst d) -> map fst (dict_set key value d) = map fst d) /\
  (~ In key (map fst d) -> map fst (dict_set key value d) = map fst d ++ [key]).
Proof.
  induction d as [|[k v] rest [IHin IHout]]; cbn.
  - split; [tauto | reflexivity].
  - destruct (String.eqb k key) eqn:Hk; cbn.
    + apply String.eqb_eq in Hk. split; [reflexivity | tauto].
    + apply String.eqb_neq in Hk. split; intros Hx.
      * rewrite IHin; [reflexivity | tauto].
      * rewrite IHout; [reflexivity | tauto].
Qed.

Lemma dict_del_keys {A : Type} (key : string) (d : list (string * A)) :
  map fst (dict_del key d)
  = filter (fun k => negb (String.eqb k key)) (map fst d).
Proof.
  unfold dict_del. induction d as [|[k v] rest IH]; cbn; [reflexivity|].
  destruct (String.eqb k key); cbn; rewrite IH; reflexivity.
Qed.

Section WithWorld.

Context {W : Type} `{PyWorld W} {E : Type}.

Variable str : E -> string.

(** [check] caches what it reports.  The check object after [check] differs
    from the one before at most in its cached fields, and these hold the
    status, the error message and the timestamp of the result record; a
    result without error clears the cached error of an earlier failure. *)
Theorem check_caches_result (self : HealthCheck W E) (w : W) :
  same_check self (snd (fst (check str self w))) /\
  cached (snd (fst (check str self w))) (fst (fst (check str self w))) /\
  result_timestamp (fst (fst (check str self w))) = fst (time_time w) /\
  (result_status (fst (fst (check str self w))) = "healthy"%string ->
   last_error (snd (fst (check str self w))) = None).
Proof.
  unfold check.
  destruct (time_time w) as [start w1].
  destruct (check_fn self w1) as [[[|]|e] w2];
    destruct (time_time w2) as [finished w3]; cbn;
    repeat split; intros; try discriminate; reflexivity.
Qed.

(** [check_one].  For a name that is not registered it returns [None] and
    changes nothing: no probe runs and the clock is not read.  For a
    registered name it returns the result of [check] on that check, stores
    the checked object under the same name, and leaves every other entry and
    the order of the names as they were. *)
Theorem check_one_registered_or_not (self : HealthMonitor W E)
    (name : string) (w : W) :
  (~ In name (names self) ->
   check_one str self name w = (None, self, w)) /\
  (forall check0,
     dict_get name (checks self) = Some check0 ->
     fst (fst (check_one str self name w))
       = Some (fst (fst (check str check0 w))) /\
     snd (check_one str self name w) = snd (check str check0 w) /\
     dict_get name (checks (snd (fst (check_one str self name w))))
       = Some (snd (fst (check str check0 w))) /\
     names (snd (fst (check_one str self name w))) = names self /\
     forall name',
       name' <> name ->
       dict_get name' (checks (snd (fst (check_one str self name w))))
       = dict_get name' (checks self)).
Proof.
  split.
  - intros Hnot. unfold check_one.
    apply (dict_get_None name (checks self)) in Hnot. rewrite Hnot.
    reflexivity.
  - intros check0 Hget. unfold check_one. rewrite Hget.
    destruct (check str check0 w) as [[result check1] w1]. cbn [fst snd checks].
    assert (Hin : In name (map fst (checks self))).
    { destruct (in_dec string_dec name (map fst (checks self))) as [Hi|Hn];
        [exact Hi|].
      apply (dict_get_None name (checks self)) in Hn. congruence. }
    repeat split.
    + apply dict_get_set_same.
    + unfold names. cbn [checks].
      exact (proj1 (dict_set_keys name check1 (checks self)) Hin).
    + intros name' Hne. apply dict_get_set_other. exact Hne.
Qed.

(** [add_check] registers or replaces by name.  Afterwards [check_one] on
    that name runs the new probe with fresh cached fields; the entries under
    other names are untouched; a name that was registered keeps its place in
    the order and a new name goes last. *)
Theorem add_check_registers (self : HealthMonitor W E) (name : string)
    (check_fn : operation W bool E) (critical : bool) (timeout : Q) (w : W) :
  let self' := add_check self name check_fn critical timeout in
  dict_get name (checks self')
    = Some (__init__ name check_fn critical timeout) /\
  fst (fst (check_one str self' name w))
    = Some (fst (fst (check str (__init__ name check_fn critical timeout) w)))
  /\
  (forall name', name' <> name ->
     dict_get name' (checks self') = dict_get name' (checks self)) /\
  (In name (names self) -> names self' = names self) /\
  (~ In name (names self) -> names self' = names self ++ [name]).
Proof.
  cbn zeta. unfold add_check, names. cbn [checks].
  split; [apply dict_get_set_same|].
  split.
  - unfold check_one. cbn [checks]. rewrite dict_get_set_same.
    destruct (check str (__init__ name check_fn critical timeout) w)
      as [[result check1] w1]. reflexivity.
  - split; [intros name' Hne; apply dict_get_set_other; exact Hne|].
    apply dict_set_keys.
Qed.

(** [remove_check].  Afterwards [check_one] on that name returns [None]
    without running anything; the entries under other names are untouched;
    removing a name that is not registered changes nothing. *)
Theorem remove_check_unregisters (self : HealthMonitor W E) (name : string)
    (w : W) :
  let self' := remove_check self name in
  check_one str self' name w = (None, self', w) /\
  ~ In name (names self') /\
  (forall name', name' <> name ->
     dict_get name' (checks self') = dict_get name' (checks self)) /\
  (~ In name (names self) -> self' = self).
Proof.
  cbn zeta. unfold remove_check, names. cbn [checks].
  split; [|split; [|split]].
  - unfold check_one. cbn [checks]. rewrite dict_get_del_same. reflexivity.
  - apply (dict_get_None name). apply dict_get_del_same.
  - intros name' Hne. apply dict_get_del_other. exact Hne.
  - intros Hnot. rewrite (dict_del_absent name (checks self) Hnot).
    destruct self. reflexivity.
Qed.

(** The loop of [check_all] checks every entry: it keeps the names and their
    order, changes each check object at most in its cached fields, and these
    hold what the result at the same position reports. *)
Lemma check_all_loop_caches (remaining : list (string * HealthCheck W E)) :
  forall (results : list CheckResult) (overall : HealthStatus) (w : W),
    exists checks' new overall' w',
      check_all_loop str remaining results overall w
        = (checks', results ++ new, overall', w') /\
      map fst checks' = map fst remaining /\
      Forall2 same_check (map snd remaining) (map snd checks') /\
      Forall2 cached (map snd checks') new.
Proof.
  induction remaining as [|[key check0] rest IH]; intros results overall w.
  - exists [], [], overall, w. cbn. rewrite app_nil_r.
    repeat split; constructor.
  - cbn [check_all_loop].
    pose proof (check_caches_result check0 w) as (Hsame & Hcached & _).
    destruct (check str check0 w) as [[result check1] w1].
    cbn [fst snd] in Hsame, Hcached.
    destruct (IH (results ++ [result])
                (update_overall overall result check1) w1)
      as (checks' & new & overall' & w' & Hrun & Hkeys & Hsames & Hcache).
    rewrite Hrun.
    exists ((key, check1) :: checks'), (result :: new), overall', w'.
    rewrite <- app_assoc. cbn [app map fst snd].
    repeat split; [congruence | |]; constructor; assumption.
Qed.

End WithWorld.

(** [check_all] is a frame around the probes: in the monitor it leaves, the
    names and their order are the same, every check object differs at most in
    its cached fields, and the cached fields of each hold the status, error
    and timestamp of the result reported at the same position. *)
Theorem check_all_caches_results {W : Type} `{PyWorld W} {E : Type}
    (str : E -> string) (self : HealthMonitor W E) (w : W) :
  let report := fst (fst (check_all str self w)) in
  let self' := snd (fst (check_all str self w)) in
  names self' = names self /\
  Forall2 same_check (map snd (checks self)) (map snd (checks self')) /\
  Forall2 cached (map snd (checks self')) (report_checks report).
Proof.
  cbn zeta. unfold check_all, names.
  destruct (check_all_loop_caches str (checks self) [] HEALTHY w)
    as (checks' & new & overall' & w' & Hrun & Hkeys & Hsames & Hcache).
  rewrite Hrun. cbn [app].
  destruct (time_time w') as [timestamp w2]. cbn.
  repeat split; assumption.
Qed.

(** The names of a monitor stay unique: a new monitor has none, and
    [add_check], [remove_check], [check_one] and [check_all] take a monitor
    without duplicate names to a monitor without duplicate names. *)
Theorem names_stay_unique {W : Type} `{PyWorld W} {E : Type}
    (str : E -> string) (self : HealthMonitor W E) :
  NoDup (names (@HealthMonitor__init__ W E)) /\
  (NoDup (names self) ->
   (forall name check_fn critical timeout,
      NoDup (names (add_check self name check_fn critical timeout))) /\
   (forall name, NoDup (names (remove_check self name))) /\
   (forall name w, NoDup (names (snd (fst (check_one str self name w))))) /\
   (forall w, NoDup (names (snd (fst (check_all str self w)))))).
Proof.
  split; [constructor|]. intros Hnd. split; [|split; [|split]].
  - intros name check_fn critical timeout.
    destruct (in_dec string_dec name (names self)) as [Hin|Hnot].
    + unfold names, add_check in *. cbn [checks].
      rewrite (proj1 (dict_set_keys name _ (checks self)) Hin). exact Hnd.
    + unfold names, add_check in *. cbn [checks].
      rewrite (proj2 (dict_set_keys name _ (checks self)) Hnot).
      apply NoDup_app; [exact Hnd | repeat constructor; intros [] | ].
      intros x Hx [Hy|[]]. subst. exact (Hnot Hx).
  - intros name. unfold names, remove_check in *. cbn [checks].
    rewrite dict_del_keys. apply NoDup_filter. exact Hnd.
  - intros name w. unfold check_one.
    destruct (dict_get name (checks self)) as [check0|] eqn:Hget;
      [|exact Hnd].
    destruct (check str check0 w) as [[result check1] w1].
    cbn [fst snd]. unfold names in *. cbn [checks].
    assert (Hin : In name (map fst (checks self))).
    { destruct (in_dec string_dec name (map fst (checks self))) as [Hi|Hn];
        [exact Hi|].
      apply (dict_get_None name (checks self)) in Hn. congruence. }
    rewrite (proj1 (dict_set_keys name check1 (checks self)) Hin). exact Hnd.
  - intros w. unfold check_all, names in *.
    destruct (check_all_loop_caches str (checks self) [] HEALTHY w)
      as (checks' & new & overall' & w' & Hrun & Hkeys & _).
    rewrite Hrun. destruct (time_time w') as [timestamp w2]. cbn.
    rewrite Hkeys. exact Hnd.
Qed.

(** *** Runs on the simulated clock *)

Import simulation.

Lemma monitor_names_unique : NoDup (names monitor).
Proof.
  repeat constructor; cbn; intuition discriminate.
Defined.

Lemma queue_not_registered : ~ In "queue"%string (names monitor).
Proof. cbn. intuition discriminate. Defined.

(** [monitor] asked for a name it does not have, and for "cache". *)
Lemma check_one_registered_or_not_witness :
  check_one (fun e => e) monitor "queue" 0%Q = (None, monitor, 0%Q) /\
  fst (fst (check_one (fun e => e) monitor "cache" 0%Q))
  = Some (fst (fst (check (fun e => e) (__init__ "cache" down false 5) 0%Q))).
Proof.
  destruct (@check_one_registered_or_not Q SimClock string (fun e => e)
              monitor "queue"%string 0%Q) as [Hmissing _].
  destruct (@check_one_registered_or_not Q SimClock string (fun e => e)
              monitor "cache"%string 0%Q) as [_ Hfound].
  split.
  - exact (Hmissing queue_not_registered).
  - exact (proj1 (Hfound (__init__ "cache" down false 5) eq_refl)).
Defined.

(** A check added to [monitor] under the new name "queue". *)
Lemma add_check_registers_witness :
  names (add_check monitor "queue" up false 5)
  = (names monitor ++ ["queue"%string])%list.
Proof.
  exact (proj2 (proj2 (proj2 (proj2
           (@add_check_registers Q SimClock string (fun e => e) monitor
              "queue"%string up false 5 0%Q))))
           queue_not_registered).
Defined.

(** A name removed from [monitor] that it does not have. *)
Lemma remove_check_unregisters_witness :
  remove_check monitor "queue" = monitor.
Proof.
  exact (proj2 (proj2 (proj2
           (@remove_check_unregisters Q SimClock string (fun e => e) monitor
              "queue"%string 0%Q)))
           queue_not_registered).
Defined.

Lemma names_stay_unique_witness :
  NoDup (names (add_check monitor "db" up true 5)) /\
  NoDup (names (snd (fst (check_all (fun e => e) monitor 0%Q)))).
Proof.
  destruct (proj2 (@names_stay_unique Q SimClock string (fun e => e) monitor)
              monitor_names_unique) as (Hadd & _ & _ & Hall).
  split; [exact (Hadd "db"%string up true 5%Q) | exact (Hall 0%Q)].
Defined.

End health_more.
